(** * realcode: the collaborative editor component (src/components/Editor.js)

    A shallow embedding of the [SimpleAwareness] class and of the handlers
    that [handleEditorDidMount], [renderRemoteCursor] and the effect cleanup
    install, followed by the properties of the synchronisation layer.

    Modelling conventions.
    - JavaScript values are the JSON-like values the component handles:
      primitives and references to plain, extensible objects living in a
      heap; an object has own data properties and a prototype.  Numbers are
      opaque payload (line numbers, columns); no arithmetic is done on them,
      so they are integers here.
    - The component is single threaded: each handler runs to completion and
      is a function on the [World], the record of every object the handlers
      can reach.  What the handlers send to collaborators outside this file
      (socket messages, calls of subscribed handlers, updates handed to the
      Yjs document) is appended to logs in the [World]; subscribed handlers
      are taken to return.  What the libraries do in reaction (the Monaco
      editor on disposal, Yjs and the binding on an applied update) follows
      their documented behaviour; where it depends on data the component does
      not see, the input carries the outcome.
    - Timers are ideal: a callback registered with [setTimeout f d] at time
      [t] runs at time [t + d], earliest deadline first. *)

From stdpp Require Import gmap strings list fin_maps pretty.
From Stdlib Require Import ZArith Strings.Byte.

Open Scope Z_scope.

(** ** JavaScript values and the object heap *)

Module Js.

Abbreviation loc := positive (only parsing).

Inductive value :=
  | VUndef
  | VNull
  | VBool (b : bool)
  | VNum (n : Z)
  | VStr (s : string)
  | VRef (l : loc).

#[global] Instance value_eq_dec : EqDecision value.
Proof. solve_decision. Defined.

Definition value_code (v : value) : unit + (unit + (bool + (Z + (string + loc)))) :=
  match v with
  | VUndef => inl ()
  | VNull => inr (inl ())
  | VBool b => inr (inr (inl b))
  | VNum n => inr (inr (inr (inl n)))
  | VStr s => inr (inr (inr (inr (inl s))))
  | VRef l => inr (inr (inr (inr (inr l))))
  end.

Definition value_decode (c : unit + (unit + (bool + (Z + (string + loc))))) : value :=
  match c with
  | inl _ => VUndef
  | inr (inl _) => VNull
  | inr (inr (inl b)) => VBool b
  | inr (inr (inr (inl n))) => VNum n
  | inr (inr (inr (inr (inl s)))) => VStr s
  | inr (inr (inr (inr (inr l)))) => VRef l
  end.

#[global] Instance value_countable : Countable value.
Proof.
  apply (inj_countable' value_code value_decode).
  intros []; reflexivity.
Defined.

(** [ToBoolean]: what [x || y] and [if (x)] test. *)
Definition truthy (v : value) : bool :=
  match v with
  | VUndef | VNull => false
  | VBool b => b
  | VNum n => negb (n =? 0)
  | VStr s => negb (bool_decide (s = ""%string))
  | VRef _ => true
  end.

(** [a !== b].  On the values above strict inequality is the negation of
    structural equality: references compare by identity. *)
Definition strict_neq (a b : value) : bool := negb (bool_decide (a = b)).

(** [ToPropertyKey] for a computed key [{ [k]: v }]. *)
Definition toPropertyKey (v : value) : string :=
  match v with
  | VUndef => "undefined"
  | VNull => "null"
  | VBool true => "true"
  | VBool false => "false"
  | VNum n => pretty n
  | VStr s => s
  | VRef _ => "[object Object]"
  end%string.

(** A plain object is a finite map from property names to values. *)
(** Exceptions. *)
Inductive error := TypeError.

Inductive result (A : Type) :=
  | Ok (a : A)
  | Throw (e : error).
Arguments Ok {A} a.
Arguments Throw {A} e.

(** The prototype of an object: [null], [Object.prototype], or an object of
    the heap. *)
Inductive proto :=
  | ProtoNull
  | ProtoObject
  | ProtoRef (l : loc).

(** An object: its prototype and its own data properties. *)
Record obj := { obj_proto : proto; fields : gmap string value }.

Abbreviation Heap := (gmap loc obj).

(** An object literal has the prototype [Object.prototype]. *)
Definition plain (f : gmap string value) : obj :=
  {| obj_proto := ProtoObject; fields := f |}.

Definition deref (h : Heap) (l : loc) : obj := default (plain ∅) (h !! l).

(** [{ ...fields }]: a fresh object. *)
Definition alloc (f : gmap string value) (h : Heap) : loc * Heap :=
  let l := fresh (dom h) in (l, <[l := plain f]> h).

(** The own property [field] of the object at [l], [undefined] if it has
    none. *)
Definition getProp (l : loc) (field : string) (h : Heap) : value :=
  default VUndef (fields (deref h l) !! field).

(** Create or update the own data property [field] of the object at [l]. *)
Definition set_own (l : loc) (field : string) (v : value) (h : Heap) : Heap :=
  <[l := {| obj_proto := obj_proto (deref h l);
            fields := <[field := v]> (fields (deref h l)) |}]> h.

Definition set_proto (l : loc) (pr : proto) (h : Heap) : Heap :=
  <[l := {| obj_proto := pr; fields := fields (deref h l) |}]> h.

(** Does the lookup of [__proto__] from the object at [l] end at the
    accessor of [Object.prototype]?  It does unless an object on the
    prototype chain has an own property of that name or the chain ends at
    [null].  Chains are finite; the fuel is the size of the heap. *)
Fixpoint finds_proto_accessor (fuel : nat) (h : Heap) (l : loc) : bool :=
  match fuel with
  | O => false
  | S n =>
      let o := deref h l in
      if decide (is_Some (fields o !! "__proto__"%string)) then false
      else match obj_proto o with
           | ProtoNull => false
           | ProtoObject => true
           | ProtoRef l' => finds_proto_accessor n h l'
           end
  end.

(** Is the object at [target] on the prototype chain that starts at [l]? *)
Fixpoint on_proto_chain (fuel : nat) (h : Heap) (target l : loc) : bool :=
  match fuel with
  | O => false
  | S n =>
      if decide (l = target) then true
      else match obj_proto (deref h l) with
           | ProtoRef l' => on_proto_chain n h target l'
           | _ => false
           end
  end.

(** The setter of [Object.prototype.__proto__] called on the object at [l]:
    a value that is neither an object nor [null] is ignored, a prototype
    that would close a cycle is refused with a [TypeError]. *)
Definition set_prototype_of (l : loc) (v : value) (h : Heap) : result Heap :=
  match v with
  | VRef l' =>
      if on_proto_chain (S (size h)) h l l' then Throw TypeError
      else Ok (set_proto l (ProtoRef l') h)
  | VNull => Ok (set_proto l ProtoNull h)
  | _ => Ok h
  end.

(** [o[field] = v] on the object at [l].  Every name creates or updates an
    own data property, except [__proto__] when its lookup ends at the
    accessor of [Object.prototype]: then the setter runs and no property is
    set. *)
Definition setProp (l : loc) (field : string) (v : value) (h : Heap) : result Heap :=
  if decide (field = "__proto__"%string) then
    if finds_proto_accessor (S (size h)) h l then set_prototype_of l v h
    else Ok (set_own l field v h)
  else Ok (set_own l field v h).

End Js.
Export Js.

(** ** Wire formats *)

(** [currentUser]: [{ name, color }]. *)
Record User := { name : value; color : value }.

(** The props of the [Editor] component ([socket] is part of the [World]). *)
Record Props := { roomId : value; currentUser : User; language : value }.

(** What the component hands to [socket.emit]. *)
Inductive message :=
  | YjsAwareness (room clientID state : value)
  | YjsSync (room : value) (update : list Z)
  | CursorPosition (room lineNumber column : value) (user : User) (userId : value)
  | SaveCode (room : value) (content : string) (lang : value).

Definition event_name (m : message) : string :=
  match m with
  | YjsAwareness _ _ _ => "yjs-awareness"
  | YjsSync _ _ => "yjs-sync"
  | CursorPosition _ _ _ _ _ => "cursor-position"
  | SaveCode _ _ _ => "save-code"
  end.

(** The [update] field of an inbound [yjs-awareness] message. *)
Record AwarenessUpdate := { upd_clientID : value; upd_state : value }.

(** [position] as the editor reports it and as [remote-cursor] carries it. *)
Record Position := { lineNumber : value; column : value }.

(** An inbound [remote-cursor] message. *)
Record RemoteCursor := { rc_userId : value; rc_position : Position; rc_user : value }.

(** ** Binary updates: [Uint8Array] and its transport as a number array *)

Abbreviation Uint8Array := (list byte).

Definition byte_to_Z (b : byte) : Z := Z.of_N (Byte.to_N b).

(** [ToUint8]: the number modulo 2^8. *)
Definition ToUint8 (n : Z) : byte :=
  default x00 (Byte.of_N (Z.to_N (n mod 256))).

(** [Array.from(update)] on a [Uint8Array]: the plain array of its elements. *)
Definition Array_from (u : Uint8Array) : list Z := byte_to_Z <$> u.

(** [new Uint8Array(array)]: each element converted with [ToUint8]. *)
Definition new_Uint8Array (a : list Z) : Uint8Array := ToUint8 <$> a.

(** ** The objects of the component *)

(** A subscribed function, compared by identity. *)
Abbreviation handler := nat (only parsing).

(** A JavaScript [Set] of handlers: insertion order, no element twice. *)
Definition set_add (h : handler) (s : list handler) : list handler :=
  if decide (h ∈ s) then s else s ++ [h].

Definition set_delete (h : handler) (s : list handler) : list handler :=
  filter (λ x, x ≠ h) s.

(** [class SimpleAwareness].  Its [socket] field is the socket of the
    [World]; [clientID] is the [socket.id] read when it was constructed. *)
Record SimpleAwareness := {
  aw_roomId : value;
  clientID : value;
  states : gmap value value;
  meta : gmap value value;
  handlers : gmap value (list handler)
}.

(** The socket: its current id ([undefined] while it is not connected, a
    new one after each reconnect), the events that carry a listener
    installed by [handleEditorDidMount], and the messages handed to
    [socket.emit] so far, each with the time of the call. *)
Record Socket := {
  sock_id : value;
  listeners : list string;
  emitted : list (Z * message)
}.

(** One decoration as it was handed to the editor.  [dec_owner] is the
    [userId] spliced into its class names [remote-cursor-<userId>] and
    [remote-cursor-label-<userId>]; the range asked for is the empty range
    at ([dec_line], [dec_column]), which the editor fits to its text. *)
Record Decoration := { dec_owner : value; dec_line : value; dec_column : value }.

(** The Monaco editor instance: text, live decorations by id, the next id
    [deltaDecorations] hands out, and whether [dispose()] was called (the
    editor then has no text model any more). *)
Record MonacoEditor := {
  content : string;
  decorations : list (nat * Decoration);
  next_decoration : nat;
  isDisposed : bool
}.

(** The Yjs document: the updates handed to [Y.applyUpdate], in order, and
    whether [destroy] was called. *)
Record YDoc := { applied : list Uint8Array; doc_destroyed : bool }.

(** What [Y.applyUpdate] does with an update is decided by the Yjs merge,
    which the component does not see.  Either the bytes cannot be decoded
    and the call raises, or they are merged; if the merge changes the shared
    text the binding writes the new text into the editor's model, and if it
    changes the document the document emits ['update'] with the bytes of
    the change. *)
Inductive SyncOutcome :=
  | Undecodable
  | Merged (new_text : option string) (update_event : option Uint8Array).

(** The closures passed to [setTimeout]. *)
Inductive Callback :=
  | SaveCb                           (* the auto-save closure *)
  | ExpireCb (ids : list nat).       (* the closure of [renderRemoteCursor] over [decorations] *)

Record Timer := { tid : nat; due : Z; cb : Callback }.

(** An entry of the [remoteCursors] React state. *)
Inductive CursorEntry :=
  | FromAwareness (state : value)
  | FromCursor (position : Position) (user : value).

Record World := {
  now : Z;
  socket : Socket;
  heap : Heap;
  awareness : SimpleAwareness;
  editor : MonacoEditor;
  ydoc : YDoc;
  binding_destroyed : bool;
  remoteCursors : gmap string CursorEntry;
  timers : list Timer;
  next_timer : nat;
  saveTimeout : option nat;
  calls : list (handler * gmap value value)
}.

(** Field updates. *)
Definition with_now (t : Z) (w : World) : World :=
  {| now := t; socket := socket w; heap := heap w; awareness := awareness w;
     editor := editor w; ydoc := ydoc w; binding_destroyed := binding_destroyed w;
     remoteCursors := remoteCursors w; timers := timers w; next_timer := next_timer w;
     saveTimeout := saveTimeout w; calls := calls w |}.

Definition with_socket (s : Socket) (w : World) : World :=
  {| now := now w; socket := s; heap := heap w; awareness := awareness w;
     editor := editor w; ydoc := ydoc w; binding_destroyed := binding_destroyed w;
     remoteCursors := remoteCursors w; timers := timers w; next_timer := next_timer w;
     saveTimeout := saveTimeout w; calls := calls w |}.

Definition with_heap (h : Heap) (w : World) : World :=
  {| now := now w; socket := socket w; heap := h; awareness := awareness w;
     editor := editor w; ydoc := ydoc w; binding_destroyed := binding_destroyed w;
     remoteCursors := remoteCursors w; timers := timers w; next_timer := next_timer w;
     saveTimeout := saveTimeout w; calls := calls w |}.

Definition with_awareness (a : SimpleAwareness) (w : World) : World :=
  {| now := now w; socket := socket w; heap := heap w; awareness := a;
     editor := editor w; ydoc := ydoc w; binding_destroyed := binding_destroyed w;
     remoteCursors := remoteCursors w; timers := timers w; next_timer := next_timer w;
     saveTimeout := saveTimeout w; calls := calls w |}.

Definition with_editor (e : MonacoEditor) (w : World) : World :=
  {| now := now w; socket := socket w; heap := heap w; awareness := awareness w;
     editor := e; ydoc := ydoc w; binding_destroyed := binding_destroyed w;
     remoteCursors := remoteCursors w; timers := timers w; next_timer := next_timer w;
     saveTimeout := saveTimeout w; calls := calls w |}.

Definition with_ydoc (d : YDoc) (w : World) : World :=
  {| now := now w; socket := socket w; heap := heap w; awareness := awareness w;
     editor := editor w; ydoc := d; binding_destroyed := binding_destroyed w;
     remoteCursors := remoteCursors w; timers := timers w; next_timer := next_timer w;
     saveTimeout := saveTimeout w; calls := calls w |}.

Definition with_binding_destroyed (b : bool) (w : World) : World :=
  {| now := now w; socket := socket w; heap := heap w; awareness := awareness w;
     editor := editor w; ydoc := ydoc w; binding_destroyed := b;
     remoteCursors := remoteCursors w; timers := timers w; next_timer := next_timer w;
     saveTimeout := saveTimeout w; calls := calls w |}.

Definition with_remoteCursors (r : gmap string CursorEntry) (w : World) : World :=
  {| now := now w; socket := socket w; heap := heap w; awareness := awareness w;
     editor := editor w; ydoc := ydoc w; binding_destroyed := binding_destroyed w;
     remoteCursors := r; timers := timers w; next_timer := next_timer w;
     saveTimeout := saveTimeout w; calls := calls w |}.

Definition with_timers (q : list Timer) (n : nat) (w : World) : World :=
  {| now := now w; socket := socket w; heap := heap w; awareness := awareness w;
     editor := editor w; ydoc := ydoc w; binding_destroyed := binding_destroyed w;
     remoteCursors := remoteCursors w; timers := q; next_timer := n;
     saveTimeout := saveTimeout w; calls := calls w |}.

Definition with_saveTimeout (s : option nat) (w : World) : World :=
  {| now := now w; socket := socket w; heap := heap w; awareness := awareness w;
     editor := editor w; ydoc := ydoc w; binding_destroyed := binding_destroyed w;
     remoteCursors := remoteCursors w; timers := timers w; next_timer := next_timer w;
     saveTimeout := s; calls := calls w |}.

Definition with_calls (c : list (handler * gmap value value)) (w : World) : World :=
  {| now := now w; socket := socket w; heap := heap w; awareness := awareness w;
     editor := editor w; ydoc := ydoc w; binding_destroyed := binding_destroyed w;
     remoteCursors := remoteCursors w; timers := timers w; next_timer := next_timer w;
     saveTimeout := saveTimeout w; calls := c |}.

(** ** The socket *)

Definition socket_emit (m : message) (w : World) : World :=
  let s := socket w in
  with_socket {| sock_id := sock_id s; listeners := listeners s;
                 emitted := emitted s ++ [(now w, m)] |} w.

Definition socket_on (ev : string) (w : World) : World :=
  let s := socket w in
  with_socket {| sock_id := sock_id s; listeners := listeners s ++ [ev];
                 emitted := emitted s |} w.

(** The socket connects, reconnects or disconnects: [socket.id] changes. *)
Definition socket_set_id (id : value) (w : World) : World :=
  let s := socket w in
  with_socket {| sock_id := id; listeners := listeners s; emitted := emitted s |} w.

(** [socket.off(ev)] without a listener argument drops every listener of [ev]. *)
Definition socket_off (ev : string) (w : World) : World :=
  let s := socket w in
  with_socket {| sock_id := sock_id s; listeners := filter (λ e, e ≠ ev) (listeners s);
                 emitted := emitted s |} w.

(** ** [class SimpleAwareness] *)

Definition new_SimpleAwareness (room cid : value) : SimpleAwareness :=
  {| aw_roomId := room; clientID := cid; states := ∅; meta := ∅; handlers := ∅ |}.

Definition with_states (m : gmap value value) (a : SimpleAwareness) : SimpleAwareness :=
  {| aw_roomId := aw_roomId a; clientID := clientID a; states := m; meta := meta a;
     handlers := handlers a |}.

Definition with_handlers (m : gmap value (list handler)) (a : SimpleAwareness)
  : SimpleAwareness :=
  {| aw_roomId := aw_roomId a; clientID := clientID a; states := states a; meta := meta a;
     handlers := m |}.

(** [on(event, handler)] *)
Definition on (event : value) (h : handler) (a : SimpleAwareness) : SimpleAwareness :=
  let hs :=
    if decide (is_Some (handlers a !! event)) then handlers a
    else <[event := []]> (handlers a) in
  with_handlers (<[event := set_add h (default [] (hs !! event))]> hs) a.

(** [off(event, handler)] *)
Definition off (event : value) (h : handler) (a : SimpleAwareness) : SimpleAwareness :=
  match handlers a !! event with
  | Some s => with_handlers (<[event := set_delete h s]> (handlers a)) a
  | None => a
  end.

(** The calls [notify(event)] makes, in order: each handler of the event's
    set, with the [states] map as its argument. *)
Definition notify_calls (event : value) (a : SimpleAwareness)
  : list (handler * gmap value value) :=
  match handlers a !! event with
  | None => []
  | Some s => (λ h, (h, states a)) <$> s
  end.

(** [notify(event)] *)
Definition notify (event : value) (w : World) : World :=
  with_calls (calls w ++ notify_calls event (awareness w)) w.

(** [getLocalState()]: [Map.get] answers [undefined] for a missing key. *)
Definition getLocalState (a : SimpleAwareness) : value :=
  default VUndef (states a !! clientID a).

(** [getStates()] *)
Definition getStates (a : SimpleAwareness) : gmap value value := states a.

(** [setLocalState(state)] *)
Definition setLocalState (state : value) (w : World) : World :=
  let a := awareness w in
  let w1 := with_awareness (with_states (<[clientID a := state]> (states a)) a) w in
  let w2 := socket_emit (YjsAwareness (aw_roomId a) (clientID a) state) w1 in
  notify (VStr "change") w2.

(** [s[field] = value; this.setLocalState(s)] for an object [s]. *)
Definition assign_and_publish (l : loc) (field : string) (v : value) (h : Heap)
    (w : World) : result World :=
  match setProp l field v h with
  | Ok h' => Ok (setLocalState (VRef l) (with_heap h' w))
  | Throw e => Throw e
  end.

(** [setLocalStateField(field, value)].  The module is strict-mode code, so
    the assignment [s[field] = value] on a truthy primitive throws; only
    for [__proto__], which reaches the setter of [Object.prototype], it
    does nothing and the method goes on. *)
Definition setLocalStateField (field : string) (v : value) (w : World) : result World :=
  let s0 := getLocalState (awareness w) in
  if truthy s0 then
    match s0 with
    | VRef l => assign_and_publish l field v (heap w) w
    | _ =>
        if decide (field = "__proto__"%string) then Ok (setLocalState s0 w)
        else Throw TypeError
    end
  else
    let '(l, h) := alloc ∅ (heap w) in
    assign_and_publish l field v h w.

(** ** Timers *)

(** The queue is ordered by deadline; timers with one deadline keep the
    order of their creation. *)
Fixpoint insert_timer (tm : Timer) (q : list Timer) : list Timer :=
  match q with
  | [] => [tm]
  | x :: r => if decide (due x ≤ due tm) then x :: insert_timer tm r else tm :: x :: r
  end.

Definition setTimeout (c : Callback) (delay : Z) (w : World) : nat * World :=
  let id := next_timer w in
  (id, with_timers (insert_timer {| tid := id; due := now w + delay; cb := c |} (timers w))
         (S id) w).

(** [clearTimeout(undefined)] and [clearTimeout] of a timer that already ran
    do nothing. *)
Definition clearTimeout (t : option nat) (w : World) : World :=
  match t with
  | None => w
  | Some id => with_timers (filter (λ tm, tid tm ≠ id) (timers w)) (next_timer w) w
  end.

(** ** The editor and the document *)

(** [editor.deltaDecorations(oldIds, newDecorations)]: drops the decorations
    named by [oldIds] (unknown ids are ignored), adds the new ones under
    fresh ids and returns these ids.  On a disposed editor it does nothing
    and returns no id. *)
Definition deltaDecorations (old : list nat) (new : list Decoration) (e : MonacoEditor)
  : list nat * MonacoEditor :=
  if isDisposed e then ([], e)
  else
    let ids := seq (next_decoration e) (length new) in
    (ids,
     {| content := content e;
        decorations := filter (λ d, d.1 ∉ old) (decorations e) ++ zip ids new;
        next_decoration := (next_decoration e + length new)%nat;
        isDisposed := isDisposed e |}).

(** [editor.getValue()]: the text of the model; a disposed editor has none
    and answers the empty string (see [dispose]). *)
Definition getValue (e : MonacoEditor) : string := content e.

(** The text of the model becomes [text]. *)
Definition set_content (text : string) (e : MonacoEditor) : MonacoEditor :=
  {| content := text; decorations := decorations e;
     next_decoration := next_decoration e; isDisposed := isDisposed e |}.

(** [editor.dispose()]: the editor lets go of its text model, and with it
    of every decoration; [getValue()] answers the empty string from then
    on. *)
Definition dispose (e : MonacoEditor) : MonacoEditor :=
  {| content := ""; decorations := [];
     next_decoration := next_decoration e; isDisposed := true |}.

(** [editor._isDisposed]: the editor object has no property of this name,
    disposed or not, so the read yields [undefined]. *)
Definition _isDisposed (e : MonacoEditor) : value := VUndef.

(** [Y.applyUpdate(ydoc, update)]: the merge is the Yjs library's; the model
    records what it was given. *)
Definition applyUpdate (u : Uint8Array) (d : YDoc) : YDoc :=
  {| applied := applied d ++ [u]; doc_destroyed := doc_destroyed d |}.

Definition destroy_doc (d : YDoc) : YDoc :=
  {| applied := applied d; doc_destroyed := true |}.

(** ** [renderRemoteCursor] and its expiry closure *)

(** The closure [() => { if (editor && !editor._isDisposed)
    editor.deltaDecorations(decorations, []) }].  [editor] is the object
    [renderRemoteCursor] has just called a method on, hence truthy, and the
    read of [_isDisposed] is falsy: the call is always made, and it is
    [deltaDecorations] that does nothing on a disposed editor. *)
Definition expire_cb (ids : list nat) (w : World) : World :=
  if negb (truthy (_isDisposed (editor w)))
  then with_editor (deltaDecorations ids [] (editor w)).2 w
  else w.

Definition renderRemoteCursor (userId : value) (position : Position) (user : value)
    (w : World) : World :=
  let '(ids, e) :=
    deltaDecorations []
      [ {| dec_owner := userId; dec_line := lineNumber position;
           dec_column := column position |} ] (editor w) in
  (setTimeout (ExpireCb ids) 3000 (with_editor e w)).2.

(** ** The handlers installed by [handleEditorDidMount] *)

Section Handlers.
Variable p : Props.

(** [ydoc.on('update', ...)] *)
Definition on_ydoc_update (u : Uint8Array) (w : World) : World :=
  socket_emit (YjsSync (roomId p) (Array_from u)) w.

(** The auto-save closure passed to [setTimeout]. *)
Definition save_cb (w : World) : World :=
  socket_emit (SaveCode (roomId p) (getValue (editor w)) (language p)) w.

(** [editor.onDidChangeModelContent(...)] *)
Definition on_content_change (w : World) : World :=
  let w1 := clearTimeout (saveTimeout w) w in
  let '(id, w2) := setTimeout SaveCb 2000 w1 in
  with_saveTimeout (Some id) w2.

(** [socket.on('yjs-sync', ...)]: the bytes are handed to [Y.applyUpdate].
    Inside that call, if the merge changed the text, the binding (unless
    destroyed) edits the model, so the model's change listener above runs;
    and if it changed the document, the document (unless destroyed) emits
    ['update'], so the listener above sends the change out again. *)
Definition on_yjs_sync (update : list Z) (outcome : SyncOutcome) (w : World) : World :=
  let w1 := with_ydoc (applyUpdate (new_Uint8Array update) (ydoc w)) w in
  match outcome with
  | Undecodable => w1
  | Merged new_text update_event =>
      let w2 :=
        match new_text with
        | Some text =>
            if binding_destroyed w1 then w1
            else on_content_change (with_editor (set_content text (editor w1)) w1)
        | None => w1
        end in
      match update_event with
      | Some u => if doc_destroyed (ydoc w2) then w2 else on_ydoc_update u w2
      | None => w2
      end
  end.

(** [socket.on('yjs-awareness', ...)] *)
Definition on_yjs_awareness (update : AwarenessUpdate) (w : World) : World :=
  if strict_neq (upd_clientID update) (sock_id (socket w)) then
    let a := awareness w in
    let w1 :=
      with_awareness
        (with_states (<[upd_clientID update := upd_state update]> (states a)) a) w in
    let w2 := notify (VStr "change") w1 in
    with_remoteCursors
      (<[toPropertyKey (upd_clientID update) := FromAwareness (upd_state update)]>
         (remoteCursors w2)) w2
  else w.

(** [editor.onDidChangeCursorPosition(...)] *)
Definition on_cursor_position (position : Position) (w : World) : World :=
  socket_emit
    (CursorPosition (roomId p) (lineNumber position) (column position)
       (currentUser p) (sock_id (socket w))) w.

(** [socket.on('remote-cursor', ...)] *)
Definition on_remote_cursor (m : RemoteCursor) (w : World) : World :=
  let w1 :=
    with_remoteCursors
      (<[toPropertyKey (rc_userId m) := FromCursor (rc_position m) (rc_user m)]>
         (remoteCursors w)) w in
  renderRemoteCursor (rc_userId m) (rc_position m) (rc_user m) w1.

(** The cleanup returned by the effect.  After the mount the three refs and
    [socket] hold objects, so every guard passes. *)
Definition cleanup (w : World) : World :=
  let w1 := with_binding_destroyed true w in
  let w2 := with_ydoc (destroy_doc (ydoc w1)) w1 in
  socket_off "remote-cursor" (socket_off "yjs-awareness" (socket_off "yjs-sync" w2)).

End Handlers.

(** ** [handleEditorDidMount] *)

(** The handler [MonacoBinding] subscribes to the awareness ['change'] event
    (the binding's decoration renderer). *)
Definition binding_handler : handler := 0%nat.

(** The world [handleEditorDidMount] builds at time [t0] from the socket and
    the editor it is given: a new document, a new awareness object whose
    [clientID] is the current [socket.id], the local [user] field, the
    binding, and the listeners.  [let saveTimeout;] starts out [undefined]. *)
Definition handleEditorDidMount (p : Props) (s : Socket) (e : MonacoEditor) (t0 : Z)
  : result World :=
  let w0 :=
    {| now := t0; socket := s; heap := ∅;
       awareness := new_SimpleAwareness (roomId p) (sock_id s);
       editor := e; ydoc := {| applied := []; doc_destroyed := false |};
       binding_destroyed := false; remoteCursors := ∅; timers := []; next_timer := 0%nat;
       saveTimeout := None; calls := [] |} in
  let '(l, h) :=
    alloc (<["name"%string := name (currentUser p)]>
             (<["color"%string := color (currentUser p)]> ∅)) (heap w0) in
  match setLocalStateField "user" (VRef l) (with_heap h w0) with
  | Throw err => Throw err
  | Ok w1 =>
      let w2 := with_awareness (on (VStr "change") binding_handler (awareness w1)) w1 in
      Ok (socket_on "remote-cursor" (socket_on "yjs-awareness" (socket_on "yjs-sync" w2)))
  end.

(** ** The event loop *)

(** What can happen to a mounted component. *)
Inductive input :=
  | YdocUpdate (u : Uint8Array)                (* the document emits ['update'] *)
  | SocketSync (update : list Z) (outcome : SyncOutcome)
                                               (* a [yjs-sync] message arrives *)
  | SocketAwareness (update : AwarenessUpdate) (* a [yjs-awareness] message arrives *)
  | SocketRemoteCursor (m : RemoteCursor)      (* a [remote-cursor] message arrives *)
  | CursorPositionChanged (position : Position)
  | ModelContentChanged (text : string)        (* the text becomes [text] *)
  | AwarenessSetField (field : string) (v : value) (* the binding sets a local field *)
  | AwarenessOn (event : value) (h : handler)
  | AwarenessOff (event : value) (h : handler)
  | Cleanup                                    (* the effect cleanup runs *)
  | EditorDisposed                             (* the widget disposes the editor *)
  | SocketIdChanged (id : value).              (* connect, reconnect, disconnect *)

Section Loop.
Variable p : Props.

(** A timer runs its callback at its deadline. *)
Definition fire (w : World) (tm : Timer) : World :=
  let w1 := with_now (Z.max (now w) (due tm)) w in
  match cb tm with
  | SaveCb => save_cb p w1
  | ExpireCb ids => expire_cb ids w1
  end.

(** Let the clock reach [t]: every timer due by then runs, in queue order.
    Neither callback creates or clears a timer. *)
Definition advance (t : Z) (w : World) : World :=
  let ready := filter (λ tm, due tm ≤ t) (timers w) in
  let later := filter (λ tm, ¬ due tm ≤ t) (timers w) in
  let w1 := foldl fire (with_timers later (next_timer w) w) ready in
  with_now (Z.max (now w1) t) w1.

(** A socket message reaches its handler only while the event has a
    listener; a destroyed document emits nothing; an exception thrown by
    [setLocalStateField] leaves the world as it was.  The widget disposes
    the editor together with its model, and the binding destroys itself
    when its model is disposed.  The socket's id changes when the
    connection is made, lost or made again. *)
Definition handle (i : input) (w : World) : World :=
  match i with
  | YdocUpdate u => if doc_destroyed (ydoc w) then w else on_ydoc_update p u w
  | SocketSync u o =>
      if decide ("yjs-sync"%string ∈ listeners (socket w)) then on_yjs_sync p u o w else w
  | SocketAwareness u =>
      if decide ("yjs-awareness"%string ∈ listeners (socket w))
      then on_yjs_awareness u w else w
  | SocketRemoteCursor m =>
      if decide ("remote-cursor"%string ∈ listeners (socket w))
      then on_remote_cursor m w else w
  | CursorPositionChanged pos => on_cursor_position p pos w
  | ModelContentChanged text =>
      on_content_change (with_editor (set_content text (editor w)) w)
  | AwarenessSetField field v =>
      match setLocalStateField field v w with
      | Ok w' => w'
      | Throw _ => w
      end
  | AwarenessOn ev h => with_awareness (on ev h (awareness w)) w
  | AwarenessOff ev h => with_awareness (off ev h (awareness w)) w
  | Cleanup => cleanup w
  | EditorDisposed => with_binding_destroyed true (with_editor (dispose (editor w)) w)
  | SocketIdChanged id => socket_set_id id w
  end.

(** A schedule is a list of inputs with the times they occur at. *)
Definition step (w : World) (ti : Z * input) : World :=
  handle ti.2 (advance ti.1 w).

Definition run (sched : list (Z * input)) (w : World) : World :=
  foldl step w sched.

End Loop.

(** ** Observations *)

(** The [save-code] messages emitted so far, with their times. *)
Definition is_save (m : Z * message) : bool :=
  match m.2 with SaveCode _ _ _ => true | _ => false end.

Definition saves (w : World) : list (Z * message) :=
  filter (λ m, is_save m) (emitted (socket w)).


(** The pending auto-save timers. *)
Definition is_save_timer (tm : Timer) : bool :=
  match cb tm with SaveCb => true | ExpireCb _ => false end.

Definition pending_saves (w : World) : list Timer :=
  filter (λ tm, is_save_timer tm) (timers w).

(** A concrete session used in the examples below: the world right after the
    mount (which returns, see [handleEditorDidMount_returns]). *)
Definition demo_props : Props :=
  {| roomId := VStr "r1"; currentUser := {| name := VStr "Ann"; color := VStr "red" |};
     language := VStr "javascript" |}.

Definition demo_socket : Socket :=
  {| sock_id := VStr "sock-A"; listeners := []; emitted := [] |}.

Definition demo_editor : MonacoEditor :=
  {| content := ""; decorations := []; next_decoration := 0%nat; isDisposed := false |}.

Definition demo_world : World :=
  match handleEditorDidMount demo_props demo_socket demo_editor 0 with
  | Ok w => w
  | Throw _ =>
      {| now := 0; socket := demo_socket; heap := ∅;
         awareness := new_SimpleAwareness VUndef VUndef; editor := demo_editor;
         ydoc := {| applied := []; doc_destroyed := false |}; binding_destroyed := false;
         remoteCursors := ∅; timers := []; next_timer := 0%nat; saveTimeout := None;
         calls := [] |}
  end.

(** ** Invariants and auxiliary notions used in the statements *)

(** Every handler set holds each handler at most once. *)
Definition handlers_wf (a : SimpleAwareness) : Prop :=
  ∀ ev s, handlers a !! ev = Some s → NoDup s.

(** Everything a timer callback leaves alone: it may only move the clock,
    emit on the socket and drop decorations. *)
Definition timer_frame (w w' : World) : Prop :=
  awareness w' = awareness w ∧ heap w' = heap w ∧ ydoc w' = ydoc w ∧
  binding_destroyed w' = binding_destroyed w ∧ remoteCursors w' = remoteCursors w ∧
  timers w' = timers w ∧ next_timer w' = next_timer w ∧
  saveTimeout w' = saveTimeout w ∧ calls w' = calls w ∧
  sock_id (socket w') = sock_id (socket w) ∧
  listeners (socket w') = listeners (socket w) ∧
  content (editor w') = content (editor w) ∧
  isDisposed (editor w') = isDisposed (editor w) ∧
  next_decoration (editor w') = next_decoration (editor w).

(** The socket's id is still the one the awareness object was built with.
    Nothing in the component changes either of them; a reconnection of the
    socket changes the socket's. *)
Definition id_inv (w : World) : Prop := clientID (awareness w) = sock_id (socket w).

(** The ids an expiry timer removes. *)
Definition expired_by (tm : Timer) : list nat :=
  match cb tm with SaveCb => [] | ExpireCb ids => ids end.

(** The [save-code] messages a list of timers emits when run in order from
    clock [clock] on an editor holding [c]. *)
Fixpoint fired_saves (p : Props) (c : string) (clock : Z) (l : list Timer)
  : list (Z * message) :=
  match l with
  | [] => []
  | tm :: r =>
      let clock' := Z.max clock (due tm) in
      (if is_save_timer tm then [(clock', SaveCode (roomId p) c (language p))] else [])
        ++ fired_saves p c clock' r
  end.

(** The variable [saveTimeout] names every auto-save timer still pending. *)
Definition save_wf (w : World) : Prop :=
  ∀ tm, tm ∈ timers w → is_save_timer tm → saveTimeout w = Some (tid tm).

(** The schedule of a burst of content changes. *)
Definition burst_sched (b : list (Z * string)) : list (Z * input) :=
  (λ tc, (tc.1, ModelContentChanged tc.2)) <$> b.

(** Each change follows the previous one by less than the 2000 ms window. *)
Fixpoint spaced (prev : Z) (b : list (Z * string)) : Prop :=
  match b with
  | [] => True
  | tc :: r => prev ≤ tc.1 < prev + 2000 ∧ spaced tc.1 r
  end.

(** The state of the debouncer right after a content change at time [t]
    that left the text [c]. *)
Definition armed (w : World) (t : Z) (c : string) : Prop :=
  save_wf w ∧ now w = t ∧ content (editor w) = c ∧
  ∃ tm, pending_saves w = [tm] ∧ due tm = t + 2000.

(** Decoration ids are handed out in increasing order: every live
    decoration, and every id an expiry timer holds, is below the next id. *)
Definition markers_wf (w : World) : Prop :=
  (∀ d, d ∈ decorations (editor w) → (d.1 < next_decoration (editor w))%nat) ∧
  (∀ tm i, tm ∈ timers w → i ∈ expired_by tm → (i < next_decoration (editor w))%nat).



(** The local state object exists in the heap. *)
Definition local_object (l : positive) (w : World) : Prop :=
  getLocalState (awareness w) = VRef l ∧ is_Some (heap w !! l).

(** Timer ids are handed out in increasing order, and the id held by
    [saveTimeout] can only name an auto-save timer. *)
Definition timer_ids_wf (w : World) : Prop :=
  (∀ tm, tm ∈ timers w → (tid tm < next_timer w)%nat) ∧
  (∀ old, saveTimeout w = Some old →
     (old < next_timer w)%nat ∧ ∀ tm, tm ∈ timers w → tid tm = old → is_save_timer tm).

(** Every live decoration is named by a pending expiry timer that is due
    within the dwell time. *)
Definition covered (w : World) : Prop :=
  ∀ d, d ∈ decorations (editor w) →
    ∃ tm, tm ∈ timers w ∧ d.1 ∈ expired_by tm ∧ due tm ≤ now w + 3000.

Definition markers_expire (w : World) : Prop :=
  timer_ids_wf w ∧ covered w ∧ isDisposed (editor w) = false.

(** At most one auto-save is pending. *)
Definition one_pending_save (w : World) : Prop :=
  save_wf w ∧ (length (pending_saves w) ≤ 1)%nat.

(** The [cursor-position] messages emitted so far, without their times. *)
Definition is_cursor_msg (m : Z * message) : bool :=
  match m.2 with CursorPosition _ _ _ _ _ => true | _ => false end.

Definition cursor_msgs (w : World) : list message :=
  snd <$> filter (λ m, is_cursor_msg m) (emitted (socket w)).

(** The schedule of local cursor moves. *)
Definition moves_sched (b : list (Z * Position)) : list (Z * input) :=
  (λ tp, (tp.1, CursorPositionChanged tp.2)) <$> b.

(** Inputs that can change the text of the model: a local edit, or a sync
    message whose merge changes the text. *)
Definition is_content_change (i : input) : bool :=
  match i with
  | ModelContentChanged _ => true
  | SocketSync _ (Merged (Some _) _) => true
  | _ => false
  end.

Definition is_dispose (i : input) : bool :=
  match i with EditorDisposed => true | _ => false end.

Definition is_id_change (i : input) : bool :=
  match i with SocketIdChanged _ => true | _ => false end.

(** What the libraries do inside [Y.applyUpdate], as inputs of their own. *)
Definition sync_reaction (outcome : SyncOutcome) (w : World) : list input :=
  match outcome with
  | Undecodable => []
  | Merged new_text update_event =>
      match new_text with
      | Some text => if binding_destroyed w then [] else [ModelContentChanged text]
      | None => []
      end ++
      match update_event with
      | Some u => [YdocUpdate u]
      | None => []
      end
  end.

(** ** The room page (src/app/editor/[roomId]/page.js) *)

Module Page.

(** The entries of the language selector. *)
Record Language := { lang_value : string; lang_label : string }.

Definition languages : list Language :=
  [ {| lang_value := "javascript"; lang_label := "JavaScript" |};
    {| lang_value := "typescript"; lang_label := "TypeScript" |};
    {| lang_value := "python"; lang_label := "Python" |};
    {| lang_value := "java"; lang_label := "Java" |};
    {| lang_value := "cpp"; lang_label := "C++" |};
    {| lang_value := "html"; lang_label := "HTML" |};
    {| lang_value := "css"; lang_label := "CSS" |};
    {| lang_value := "json"; lang_label := "JSON" |} ]%string.

(** The extension of the file name in the top bar:
    [language === 'javascript' ? 'js' : language === 'typescript' ? 'ts'
     : language === 'python' ? 'py' : language]. *)
Definition fileExtension (language : string) : string :=
  if decide (language = "javascript") then "js"
  else if decide (language = "typescript") then "ts"
  else if decide (language = "python") then "py"
  else language.

(** The part of the page state [copyRoomId] touches: the [copied] flag, what
    was written to the clipboard, and the deadlines of the pending
    [() => setCopied(false)] timers. *)
Record CopyState := {
  pg_now : Z;
  copied : bool;
  clipboard : list value;
  resets : list Z
}.

(** [copyRoomId] *)
Definition copyRoomId (room : value) (s : CopyState) : CopyState :=
  {| pg_now := pg_now s; copied := true; clipboard := clipboard s ++ [room];
     resets := resets s ++ [pg_now s + 2000] |}.

(** The clock reaches [t]: every reset due by then runs. *)
Definition pg_advance (t : Z) (s : CopyState) : CopyState :=
  {| pg_now := Z.max (pg_now s) t;
     copied := if decide (Exists (λ d, d ≤ t) (resets s)) then false else copied s;
     clipboard := clipboard s;
     resets := filter (λ d, ¬ d ≤ t) (resets s) |}.

(** Clicks on the copy button at the given times. *)
Definition pg_click (room : value) (s : CopyState) (t : Z) : CopyState :=
  copyRoomId room (pg_advance t s).

Definition pg_clicks (room : value) (ts : list Z) (s : CopyState) : CopyState :=
  foldl (pg_click room) s ts.

End Page.

(** * Properties *)

(** ** The wire encoding of document updates *)

Lemma byte_to_Z_range (b : byte) : 0 ≤ byte_to_Z b < 256.
Proof.
  unfold byte_to_Z. pose proof (Byte.to_N_bounded b) as Hb. lia.
Qed.

Lemma ToUint8_byte_to_Z (b : byte) : ToUint8 (byte_to_Z b) = b.
Proof.
  unfold ToUint8. rewrite Z.mod_small by apply byte_to_Z_range.
  unfold byte_to_Z. rewrite N2Z.id, Byte.of_to_N. reflexivity.
Qed.

Lemma new_Uint8Array_Array_from (u : Uint8Array) : new_Uint8Array (Array_from u) = u.
Proof.
  unfold new_Uint8Array, Array_from.
  induction u as [|b u IH]; [reflexivity|].
  rewrite !fmap_cons, ToUint8_byte_to_Z, IH. reflexivity.
Qed.

(** What the model's change listener leaves alone. *)
Lemma on_content_change_frame (w : World) :
  socket (on_content_change w) = socket w ∧ heap (on_content_change w) = heap w ∧
  awareness (on_content_change w) = awareness w ∧
  editor (on_content_change w) = editor w ∧ ydoc (on_content_change w) = ydoc w ∧
  binding_destroyed (on_content_change w) = binding_destroyed w ∧
  remoteCursors (on_content_change w) = remoteCursors w ∧
  calls (on_content_change w) = calls w ∧ now (on_content_change w) = now w.
Proof. unfold on_content_change. simpl. destruct (saveTimeout w); repeat split. Qed.

(** A sync message does what its reaction does, as inputs of their own, once
    the bytes are handed over. *)
Lemma on_yjs_sync_handle (p : Props) (update : list Z) (o : SyncOutcome) (w : World) :
  let w1 := with_ydoc (applyUpdate (new_Uint8Array update) (ydoc w)) w in
  on_yjs_sync p update o w = foldl (λ w0 i, handle p i w0) w1 (sync_reaction o w1).
Proof.
  intros w1. subst w1. unfold on_yjs_sync, sync_reaction.
  destruct o as [|[text|] [u|]]; simpl; try reflexivity;
    destruct (binding_destroyed w); reflexivity.
Qed.

Lemma sync_reaction_inputs (o : SyncOutcome) (w : World) (i : input) :
  i ∈ sync_reaction o w → (∃ text, i = ModelContentChanged text) ∨ (∃ u, i = YdocUpdate u).
Proof.
  unfold sync_reaction. destruct o as [|[text|] [u|]]; simpl;
    try destruct (binding_destroyed w); simpl; intros Hi;
    repeat (apply elem_of_cons in Hi; destruct Hi as [->|Hi]; [eauto|]);
    by apply elem_of_nil in Hi.
Qed.

(** To show that every input keeps a property of the world, it is enough to
    look at the inputs other than sync messages, provided the reaction of
    the libraries to a sync message is covered too. *)
Lemma handle_inv (p : Props) (Q : input → Prop) (P : World → Prop) :
  (∀ w d, P w → P (with_ydoc d w)) →
  (∀ i w, (∀ u o, i ≠ SocketSync u o) → Q i → P w → P (handle p i w)) →
  (∀ text, Q (ModelContentChanged text)) → (∀ u, Q (YdocUpdate u)) →
  ∀ i w, Q i → P w → P (handle p i w).
Proof.
  intros Hy Hcore Hq1 Hq2 i w Hi HP.
  assert (Hcase : (∃ u o, i = SocketSync u o) ∨ ∀ u o, i ≠ SocketSync u o).
  { destruct i; try (right; intros; discriminate). left. eauto. }
  destruct Hcase as [(u & o & ->)|Hn].
  - simpl. destruct (decide _); [|exact HP]. rewrite on_yjs_sync_handle.
    set (w1 := with_ydoc _ w). assert (H1 : P w1) by apply Hy, HP.
    assert (Hl : ∀ i, i ∈ sync_reaction o w1 → (∀ u o, i ≠ SocketSync u o) ∧ Q i).
    { intros i Hin. apply sync_reaction_inputs in Hin.
      destruct Hin as [[t ->]|[u' ->]]; split; try discriminate; auto. }
    set (l := sync_reaction o w1) in *. clearbody l. clearbody w1. revert w1 H1.
    induction l as [|x l IH]; intros w1 H1; [exact H1|].
    simpl. apply IH.
    + intros y Hy'. apply Hl. by right.
    + apply Hcore; [apply Hl; left|apply Hl; left|exact H1].
  - by apply Hcore.
Qed.

(** What a sync message leaves alone, whatever the merge does. *)
Lemma on_yjs_sync_frame (p : Props) (update : list Z) (o : SyncOutcome) (w : World) :
  let w' := on_yjs_sync p update o w in
  awareness w' = awareness w ∧ heap w' = heap w ∧
  sock_id (socket w') = sock_id (socket w) ∧
  listeners (socket w') = listeners (socket w) ∧
  decorations (editor w') = decorations (editor w) ∧
  isDisposed (editor w') = isDisposed (editor w) ∧
  next_decoration (editor w') = next_decoration (editor w) ∧
  remoteCursors w' = remoteCursors w ∧ calls w' = calls w ∧ now w' = now w ∧
  binding_destroyed w' = binding_destroyed w ∧
  doc_destroyed (ydoc w') = doc_destroyed (ydoc w).
Proof.
  intros w'. subst w'. unfold on_yjs_sync.
  set (w1 := with_ydoc (applyUpdate (new_Uint8Array update) (ydoc w)) w).
  destruct o as [|text ev]; [repeat split|].
  set (w2 := match text with
             | Some t => if binding_destroyed w1 then w1
                         else on_content_change (with_editor (set_content t (editor w1)) w1)
             | None => w1
             end).
  assert (H2 : awareness w2 = awareness w ∧ heap w2 = heap w ∧
               sock_id (socket w2) = sock_id (socket w) ∧
               listeners (socket w2) = listeners (socket w) ∧
               decorations (editor w2) = decorations (editor w) ∧
               isDisposed (editor w2) = isDisposed (editor w) ∧
               next_decoration (editor w2) = next_decoration (editor w) ∧
               remoteCursors w2 = remoteCursors w ∧ calls w2 = calls w ∧
               now w2 = now w ∧ binding_destroyed w2 = binding_destroyed w ∧
               doc_destroyed (ydoc w2) = doc_destroyed (ydoc w)).
  { unfold w2. destruct text as [t|]; [|repeat split].
    destruct (binding_destroyed w1); [repeat split|].
    destruct (on_content_change_frame (with_editor (set_content t (editor w1)) w1))
      as (Es & Eh & Ea & Ee & Ey & Eb & Er & Ec & En).
    rewrite Es, Eh, Ea, Ee, Ey, Eb, Er, Ec, En. repeat split. }
  clearbody w2. destruct ev as [u|]; [|exact H2].
  case (doc_destroyed (ydoc w2)); exact H2.
Qed.

Lemma on_yjs_sync_applied (p : Props) (update : list Z) (o : SyncOutcome) (w : World) :
  applied (ydoc (on_yjs_sync p update o w)) = applied (ydoc w) ++ [new_Uint8Array update].
Proof.
  unfold on_yjs_sync.
  set (w1 := with_ydoc (applyUpdate (new_Uint8Array update) (ydoc w)) w).
  assert (E1 : applied (ydoc w1) = applied (ydoc w) ++ [new_Uint8Array update])
    by reflexivity.
  destruct o as [|text ev]; [exact E1|].
  assert (E2 : ∀ w2, ydoc (match ev with
                           | Some u => if doc_destroyed (ydoc w2) then w2
                                       else on_ydoc_update p u w2
                           | None => w2
                           end) = ydoc w2).
  { intros w2. destruct ev; [|reflexivity]. by destruct (doc_destroyed (ydoc w2)). }
  rewrite E2. destruct text as [text|]; [|exact E1].
  destruct (binding_destroyed w1); [exact E1|].
  destruct (on_content_change_frame (with_editor (set_content text (editor w1)) w1))
    as (_&_&_&_&Ey&_). rewrite Ey. exact E1.
Qed.

(** C10.  The update a sender hands to [socket.emit] as a number array is
    rebuilt by the receiver into the very bytes the sender's document
    produced: [new Uint8Array(Array.from(u))] is [u], and the receiver's
    [yjs-sync] handler passes exactly [u] to [Y.applyUpdate], whatever the
    merge then makes of it. *)
Theorem yjs_sync_wire_roundtrip (p : Props) (u : Uint8Array) (sender receiver : World) :
  new_Uint8Array (Array_from u) = u ∧
  ∃ wire : list Z,
    emitted (socket (on_ydoc_update p u sender))
      = emitted (socket sender) ++ [(now sender, YjsSync (roomId p) wire)] ∧
    Forall (λ n, 0 ≤ n < 256) wire ∧
    ∀ p' outcome,
      applied (ydoc (on_yjs_sync p' wire outcome receiver))
        = applied (ydoc receiver) ++ [u].
Proof.
  split; [apply new_Uint8Array_Array_from|].
  exists (Array_from u). split; [reflexivity|]. split.
  - unfold Array_from. apply Forall_fmap, Forall_forall. intros b _.
    apply byte_to_Z_range.
  - intros p' o. rewrite on_yjs_sync_applied, new_Uint8Array_Array_from. reflexivity.
Qed.

(** ** Subscriptions of [SimpleAwareness] *)

Lemma set_add_elem (h : handler) (s : list handler) : h ∈ set_add h s.
Proof.
  unfold set_add. destruct (decide (h ∈ s)); [assumption|].
  apply elem_of_app. right. apply list_elem_of_singleton. reflexivity.
Qed.

Lemma set_add_idem (h : handler) (s : list handler) :
  set_add h (set_add h s) = set_add h s.
Proof.
  unfold set_add at 1. destruct (decide (h ∈ set_add h s)) as [|Hn]; [reflexivity|].
  destruct Hn. apply set_add_elem.
Qed.

Lemma set_add_NoDup (h : handler) (s : list handler) : NoDup s → NoDup (set_add h s).
Proof.
  intros Hs. unfold set_add. destruct (decide (h ∈ s)) as [|Hn]; [assumption|].
  apply NoDup_app. split; [assumption|]. split.
  - intros x Hx Hx'. apply list_elem_of_singleton in Hx'. subst. contradiction.
  - apply NoDup_singleton.
Qed.

Lemma set_delete_NoDup (h : handler) (s : list handler) : NoDup s → NoDup (set_delete h s).
Proof. intros Hs. unfold set_delete. apply NoDup_filter. assumption. Qed.

Lemma handlers_on (ev : value) (h : handler) (a : SimpleAwareness) :
  handlers (on ev h a) = <[ev := set_add h (default [] (handlers a !! ev))]> (handlers a).
Proof.
  unfold on. simpl. destruct (decide (is_Some (handlers a !! ev))) as [|Hn]; [reflexivity|].
  rewrite lookup_insert_eq. simpl. rewrite insert_insert_eq.
  apply eq_None_not_Some in Hn. rewrite Hn. reflexivity.
Qed.

Lemma on_eq (ev : value) (h : handler) (a : SimpleAwareness) :
  on ev h a
  = with_handlers (<[ev := set_add h (default [] (handlers a !! ev))]> (handlers a)) a.
Proof. rewrite <- handlers_on. reflexivity. Qed.

Lemma on_wf (ev : value) (h : handler) (a : SimpleAwareness) :
  handlers_wf a → handlers_wf (on ev h a).
Proof.
  intros Hwf ev' s. rewrite handlers_on.
  destruct (decide (ev = ev')) as [->|Hne].
  - rewrite lookup_insert_eq. intros [= <-]. apply set_add_NoDup.
    destruct (handlers a !! ev') as [s'|] eqn:E; simpl; [eauto|apply NoDup_nil_2].
  - rewrite lookup_insert_ne by assumption. apply Hwf.
Qed.

Lemma off_wf (ev : value) (h : handler) (a : SimpleAwareness) :
  handlers_wf a → handlers_wf (off ev h a).
Proof.
  intros Hwf ev' s. unfold off.
  destruct (handlers a !! ev) as [s0|] eqn:E; [|apply Hwf]. simpl.
  destruct (decide (ev = ev')) as [->|Hne].
  - rewrite lookup_insert_eq. intros [= <-]. apply set_delete_NoDup. eauto.
  - rewrite lookup_insert_ne by assumption. apply Hwf.
Qed.

Lemma new_SimpleAwareness_wf (room cid : value) : handlers_wf (new_SimpleAwareness room cid).
Proof. intros ev s. simpl. rewrite lookup_empty. discriminate. Qed.

Lemma NoDup_filter_eq_one (h : handler) (s : list handler) :
  NoDup s → h ∈ s → filter (λ x, x = h) s = [h].
Proof.
  induction 1 as [|x s Hx Hs IH]; intros Hin.
  - apply elem_of_nil in Hin. contradiction.
  - apply elem_of_cons in Hin. destruct (decide (x = h)) as [->|Hne].
    + rewrite filter_cons_True by reflexivity. f_equal.
      destruct (filter (λ x, x = h) s) as [|y r] eqn:E; [reflexivity|].
      assert (Hy : y ∈ filter (λ x, x = h) s) by (rewrite E; left).
      apply list_elem_of_filter in Hy. destruct Hy as [-> Hy]. contradiction.
    + rewrite filter_cons_False by assumption. apply IH.
      destruct Hin as [->|]; [contradiction|assumption].
Qed.

(** C8.  Subscribing one handler twice to one event is the same as
    subscribing it once, and a [notify] of that event then calls it exactly
    once. *)
Theorem on_twice_notify_once (event : value) (h : handler) (w : World)
    (Hwf : handlers_wf (awareness w)) :
  let a2 := on event h (on event h (awareness w)) in
  a2 = on event h (awareness w) ∧
  ∃ cs, calls (notify event (with_awareness a2 w)) = calls w ++ cs ∧
        filter (λ c, c.1 = h) cs = [(h, states (awareness w))].
Proof.
  intros a2.
  assert (Heq : a2 = on event h (awareness w)).
  { unfold a2. rewrite (on_eq event h (on event h (awareness w))).
    rewrite handlers_on, lookup_insert_eq. simpl.
    rewrite set_add_idem, insert_insert_eq. rewrite (on_eq event h (awareness w)).
    reflexivity. }
  split; [exact Heq|].
  exists (notify_calls event a2). split; [reflexivity|].
  rewrite Heq. unfold notify_calls. rewrite handlers_on, lookup_insert_eq.
  set (s := set_add h (default [] (handlers (awareness w) !! event))).
  assert (Hnd : NoDup s).
  { apply set_add_NoDup. destruct (handlers (awareness w) !! event) eqn:E; simpl;
      [eauto|apply NoDup_nil_2]. }
  assert (Hin : h ∈ s) by apply set_add_elem.
  replace (states (on event h (awareness w))) with (states (awareness w)) by reflexivity.
  clearbody s. clear -Hnd Hin.
  induction Hnd as [|x s Hx Hs IH].
  - apply elem_of_nil in Hin. contradiction.
  - apply elem_of_cons in Hin. rewrite fmap_cons. destruct (decide (x = h)) as [->|Hne].
    + rewrite filter_cons_True by reflexivity. f_equal.
      destruct (filter _ (_ <$> s)) as [|y r] eqn:E; [reflexivity|].
      assert (Hy : y ∈ filter (λ c : handler * gmap value value, c.1 = h)
                         ((λ h0, (h0, states (awareness w))) <$> s))
        by (rewrite E; left).
      apply list_elem_of_filter in Hy. destruct Hy as [Hy1 Hy2].
      apply list_elem_of_fmap in Hy2. destruct Hy2 as (z & -> & Hz). simpl in Hy1.
      subst. contradiction.
    + rewrite filter_cons_False by (simpl; assumption). apply IH.
      destruct Hin as [->|]; [contradiction|assumption].
Qed.

Lemma on_twice_notify_once_witness :
  handlers_wf (awareness demo_world) ∧
  on (VStr "change") 7%nat (on (VStr "change") 7%nat (awareness demo_world))
    = on (VStr "change") 7%nat (awareness demo_world).
Proof.
  assert (Hwf : handlers_wf (awareness demo_world)).
  { intros ev s Hs.
    assert (Hd : handlers (awareness demo_world) = {[ VStr "change" := [binding_handler] ]})
      by (vm_compute; reflexivity).
    rewrite Hd in Hs. apply lookup_singleton_Some in Hs. destruct Hs as [_ <-].
    apply NoDup_singleton. }
  split; [exact Hwf|].
  exact (proj1 (on_twice_notify_once (VStr "change") 7%nat demo_world Hwf)).
Defined.

(** ** What a timer can touch *)

Lemma timer_frame_refl (w : World) : timer_frame w w.
Proof. repeat split. Qed.

Lemma timer_frame_trans (w1 w2 w3 : World) :
  timer_frame w1 w2 → timer_frame w2 w3 → timer_frame w1 w3.
Proof. unfold timer_frame. intros H12 H23. intuition congruence. Qed.

(** The expiry closure only touches the editor, and there only the
    decorations, and those only on an editor that is not disposed. *)
Lemma expire_cb_spec (ids : list nat) (w : World) :
  expire_cb ids w = with_editor (editor (expire_cb ids w)) w ∧
  content (editor (expire_cb ids w)) = content (editor w) ∧
  isDisposed (editor (expire_cb ids w)) = isDisposed (editor w) ∧
  next_decoration (editor (expire_cb ids w)) = next_decoration (editor w) ∧
  decorations (editor (expire_cb ids w))
    = if isDisposed (editor w) then decorations (editor w)
      else filter (λ d, d.1 ∉ ids) (decorations (editor w)).
Proof.
  split; [reflexivity|].
  unfold expire_cb, deltaDecorations. simpl.
  destruct (isDisposed (editor w)) eqn:Ed; simpl.
  - repeat split; exact Ed.
  - rewrite app_nil_r. repeat split; auto using Nat.add_0_r.
Qed.

Lemma fire_frame (p : Props) (w : World) (tm : Timer) : timer_frame w (fire p w tm).
Proof.
  unfold fire. destruct (cb tm) as [|ids]; [repeat split|].
  destruct (expire_cb_spec ids (with_now (Z.max (now w) (due tm)) w))
    as (E & Ec & Ed & En & _).
  rewrite E. repeat split; assumption.
Qed.

Lemma foldl_fire_frame (p : Props) (l : list Timer) (w : World) :
  timer_frame w (foldl (fire p) w l).
Proof.
  revert w. induction l as [|tm l IH]; intros w; simpl; [apply timer_frame_refl|].
  eapply timer_frame_trans; [apply fire_frame|apply IH].
Qed.

Lemma advance_awareness (p : Props) (t : Z) (w : World) :
  awareness (advance p t w) = awareness w ∧ heap (advance p t w) = heap w ∧
  sock_id (socket (advance p t w)) = sock_id (socket w) ∧
  listeners (socket (advance p t w)) = listeners (socket w) ∧
  saveTimeout (advance p t w) = saveTimeout w ∧
  content (editor (advance p t w)) = content (editor w) ∧
  isDisposed (editor (advance p t w)) = isDisposed (editor w) ∧
  next_decoration (editor (advance p t w)) = next_decoration (editor w) ∧
  next_timer (advance p t w) = next_timer w ∧
  timers (advance p t w) = filter (λ tm, ¬ due tm ≤ t) (timers w).
Proof.
  unfold advance. simpl.
  pose proof (foldl_fire_frame p (filter (λ tm, due tm ≤ t) (timers w))
                (with_timers (filter (λ tm, ¬ due tm ≤ t) (timers w)) (next_timer w) w))
    as H.
  unfold timer_frame in H. simpl in H. intuition.
Qed.

(** ** The local awareness entry *)

(** C9.  [setLocalState] writes the states map at the local [clientID] only:
    every other client's entry in [getStates()] is what it was, and no
    object of the heap is touched. *)
Theorem setLocalState_other_entries (state : value) (w : World) (k : value)
    (Hk : k ≠ clientID (awareness w)) :
  getStates (awareness (setLocalState state w)) !! k = getStates (awareness w) !! k ∧
  heap (setLocalState state w) = heap w.
Proof.
  split; [|reflexivity].
  unfold getStates, setLocalState. simpl.
  apply lookup_insert_ne. congruence.
Qed.

Lemma setLocalState_other_entries_witness :
  getStates (awareness (setLocalState (VNum 1) demo_world)) !! VStr "sock-B"
    = getStates (awareness demo_world) !! VStr "sock-B" ∧
  heap (setLocalState (VNum 1) demo_world) = heap demo_world.
Proof.
  apply (setLocalState_other_entries (VNum 1) demo_world (VStr "sock-B")).
  vm_compute. discriminate.
Defined.

Lemma setLocalStateField_ids (field : string) (v : value) (w w' : World) :
  setLocalStateField field v w = Ok w' →
  clientID (awareness w') = clientID (awareness w) ∧
  sock_id (socket w') = sock_id (socket w) ∧
  listeners (socket w') = listeners (socket w) ∧
  handlers (awareness w') = handlers (awareness w) ∧
  timers w' = timers w ∧ saveTimeout w' = saveTimeout w ∧ editor w' = editor w ∧
  next_timer w' = next_timer w ∧ now w' = now w.
Proof.
  assert (Ha : ∀ l h w0, assign_and_publish l field v h w0 = Ok w' →
            clientID (awareness w') = clientID (awareness w0) ∧
            sock_id (socket w') = sock_id (socket w0) ∧
            listeners (socket w') = listeners (socket w0) ∧
            handlers (awareness w') = handlers (awareness w0) ∧
            timers w' = timers w0 ∧ saveTimeout w' = saveTimeout w0 ∧
            editor w' = editor w0 ∧ next_timer w' = next_timer w0 ∧ now w' = now w0).
  { intros l h w0. unfold assign_and_publish. destruct (setProp l field v h); [|discriminate].
    intros [= <-]. repeat split. }
  unfold setLocalStateField.
  destruct (truthy (getLocalState (awareness w))).
  - destruct (getLocalState (awareness w)); try (by apply Ha);
      (destruct (decide _); [|discriminate]); intros [= <-]; repeat split.
  - unfold alloc. simpl. apply Ha.
Qed.

Lemma setLocalStateField_states (field : string) (v : value) (w w' : World) :
  setLocalStateField field v w = Ok w' →
  ∃ s, states (awareness w') = <[clientID (awareness w) := s]> (states (awareness w)).
Proof.
  assert (Ha : ∀ l h w0, assign_and_publish l field v h w0 = Ok w' →
            ∃ s, states (awareness w')
                 = <[clientID (awareness w0) := s]> (states (awareness w0))).
  { intros l h w0. unfold assign_and_publish. destruct (setProp l field v h); [|discriminate].
    intros [= <-]. eexists. reflexivity. }
  unfold setLocalStateField.
  destruct (truthy (getLocalState (awareness w))).
  - destruct (getLocalState (awareness w)); try (by apply Ha);
      (destruct (decide _); [|discriminate]); intros [= <-]; eexists; reflexivity.
  - unfold alloc. simpl. apply Ha.
Qed.

Lemma setProp_keeps_objects (l : loc) (field : string) (v : value) (h h' : Heap) :
  setProp l field v h = Ok h' →
  is_Some (h' !! l) ∨ h' = h.
Proof.
  unfold setProp, set_prototype_of, set_own, set_proto.
  destruct (decide _); [destruct (finds_proto_accessor _ _ _)|].
  - destruct v as [| | | | |l']; try (intros [= <-]; by right);
      [|destruct (on_proto_chain _ _ _ _); [discriminate|]];
      intros [= <-]; left; rewrite lookup_insert_eq; by eexists.
  - intros [= <-]. left. rewrite lookup_insert_eq. by eexists.
  - intros [= <-]. left. rewrite lookup_insert_eq. by eexists.
Qed.

(** With a local state object in place, [setLocalStateField] that returns
    leaves the entry referring to it. *)
Lemma setLocalStateField_keeps_object (field : string) (v : value) (w w' : World)
    (l : loc) :
  getLocalState (awareness w) = VRef l → is_Some (heap w !! l) →
  setLocalStateField field v w = Ok w' →
  getLocalState (awareness w') = VRef l ∧ is_Some (heap w' !! l).
Proof.
  intros Hl Hh. unfold setLocalStateField, assign_and_publish. rewrite Hl. simpl.
  destruct (setProp l field v (heap w)) as [h'|] eqn:E; [|discriminate].
  intros [= <-]. split.
  - unfold getLocalState, setLocalState. simpl. by rewrite lookup_insert_eq.
  - simpl. apply setProp_keeps_objects in E. destruct E as [E| ->]; assumption.
Qed.

Lemma handleEditorDidMount_id_inv (p : Props) (s : Socket) (e : MonacoEditor) (t0 : Z)
    (w : World) :
  handleEditorDidMount p s e t0 = Ok w → id_inv w.
Proof.
  unfold handleEditorDidMount, id_inv.
  destruct (alloc _ _) as [l h] eqn:Ea.
  destruct (setLocalStateField _ _ _) as [w1|] eqn:E; [|discriminate].
  intros [= <-]. apply setLocalStateField_ids in E. simpl in *.
  destruct E as (E1 & E2 & _). rewrite E2. unfold on. simpl. exact E1.
Qed.

(** The two ids stay equal as long as the socket's id does not change. *)
Lemma handle_id_inv (p : Props) (i : input) (w : World) :
  is_id_change i = false → id_inv w → id_inv (handle p i w).
Proof.
  apply (handle_inv p (λ i, is_id_change i = false) id_inv);
    [intros w0 d H; exact H| |reflexivity|reflexivity].
  clear i w. unfold id_inv. intros i w Hns Hi H.
  destruct i as [u|u o|u|m|pos|text|f v|ev h|ev h| | |id]; simpl; try exact H;
    try discriminate Hi.
  - destruct (doc_destroyed (ydoc w)); exact H.
  - by destruct (Hns u o).
  - destruct (decide _); [|exact H]. unfold on_yjs_awareness.
    destruct (strict_neq _ _); exact H.
  - destruct (decide _); [|exact H]. unfold on_remote_cursor, renderRemoteCursor.
    simpl. destruct (deltaDecorations _ _ _). exact H.
  - destruct (saveTimeout w); exact H.
  - destruct (setLocalStateField f v w) as [w'|] eqn:E; [|exact H].
    apply setLocalStateField_ids in E. destruct E as (E1 & E2 & _). congruence.
  - unfold off. destruct (handlers (awareness w) !! ev); exact H.
Qed.

Lemma step_id_inv (p : Props) (w : World) (ti : Z * input) :
  is_id_change ti.2 = false → id_inv w → id_inv (step p w ti).
Proof.
  intros Hi H. unfold step. apply handle_id_inv; [exact Hi|]. unfold id_inv.
  destruct (advance_awareness p ti.1 w) as (E1 & _ & E2 & _). rewrite E1, E2. exact H.
Qed.

Lemma run_id_inv (p : Props) (sched : list (Z * input)) (w : World) :
  (∀ ti, ti ∈ sched → is_id_change ti.2 = false) → id_inv w → id_inv (run p sched w).
Proof.
  unfold run. revert w. induction sched as [|ti sched IH]; intros w Hs H; simpl;
    [exact H|].
  apply IH; [intros x Hx; apply Hs; by right|].
  apply step_id_inv; [apply Hs; left|exact H].
Qed.

Lemma strict_neq_false (a b : value) : strict_neq a b = false ↔ a = b.
Proof.
  unfold strict_neq. rewrite negb_false_iff, bool_decide_eq_true. reflexivity.
Qed.

Lemma strict_neq_true (a b : value) : strict_neq a b = true ↔ a ≠ b.
Proof.
  unfold strict_neq. rewrite negb_true_iff, bool_decide_eq_false. reflexivity.
Qed.

(** X21.  While the socket's id is the [clientID] the awareness object was
    built with, an inbound awareness message that names the local
    [clientID] is ignored: the world, and with it the states map and the
    calls made to subscribers, is what it was.  A message for any other
    [clientID] replaces that client's stored state by the message's state.
    And no input other than a call of [setLocalStateField] then changes the
    local entry or the object it refers to. *)
Theorem remote_awareness_never_overwrites_local (u : AwarenessUpdate) (w : World)
    (Hid : id_inv w) :
  (upd_clientID u = clientID (awareness w) → on_yjs_awareness u w = w) ∧
  (upd_clientID u ≠ clientID (awareness w) →
     states (awareness (on_yjs_awareness u w))
       = <[upd_clientID u := upd_state u]> (states (awareness w)) ∧
     calls (on_yjs_awareness u w)
       = calls w ++ notify_calls (VStr "change") (awareness (on_yjs_awareness u w))) ∧
  (∀ p t i, (∀ f v, i ≠ AwarenessSetField f v) →
     clientID (awareness (step p w (t, i))) = clientID (awareness w) ∧
     getLocalState (awareness (step p w (t, i))) = getLocalState (awareness w) ∧
     heap (step p w (t, i)) = heap w).
Proof.
  unfold id_inv in Hid. split; [|split].
  - intros E. unfold on_yjs_awareness. rewrite <- Hid, <- E.
    replace (strict_neq _ _) with false; [reflexivity|].
    symmetry. apply strict_neq_false. reflexivity.
  - intros E. unfold on_yjs_awareness. rewrite <- Hid.
    replace (strict_neq _ _) with true by (symmetry; apply strict_neq_true; exact E).
    split; reflexivity.
  - intros p t i Hi. unfold step. simpl.
    destruct (advance_awareness p t w) as (Ea & Eh & Es & _).
    set (w1 := advance p t w) in *.
    assert (Hgoal : clientID (awareness (handle p i w1)) = clientID (awareness w1) ∧
                    getLocalState (awareness (handle p i w1)) = getLocalState (awareness w1) ∧
                    heap (handle p i w1) = heap w1).
    { clearbody w1.
      destruct i as [u'|u' o|u'|m|pos|text|f v|ev h|ev h| | |id]; simpl;
        try (repeat split; reflexivity).
      - destruct (doc_destroyed (ydoc w1)); repeat split; reflexivity.
      - destruct (decide _); [|repeat split; reflexivity].
        destruct (on_yjs_sync_frame p u' o w1) as (Ea' & Eh' & _).
        rewrite Ea', Eh'. repeat split.
      - destruct (decide _); [|repeat split; reflexivity].
        unfold on_yjs_awareness.
        destruct (strict_neq _ _) eqn:En; [|repeat split; reflexivity].
        apply strict_neq_true in En. split; [reflexivity|]. split; [|reflexivity].
        unfold getLocalState. simpl. rewrite lookup_insert_ne; [reflexivity|].
        rewrite Ea, Hid, <- Es. exact En.
      - destruct (decide _); [|repeat split; reflexivity].
        unfold on_remote_cursor, renderRemoteCursor. simpl.
        destruct (deltaDecorations _ _ _). repeat split.
      - unfold on_content_change. simpl.
        destruct (saveTimeout w1); repeat split; reflexivity.
      - destruct (Hi f v). reflexivity.
      - unfold off. destruct (handlers (awareness w1) !! ev); repeat split; reflexivity. }
    rewrite Ea, Eh in Hgoal. exact Hgoal.
Qed.

Lemma remote_awareness_never_overwrites_local_witness :
  id_inv demo_world ∧
  on_yjs_awareness {| upd_clientID := VStr "sock-A"; upd_state := VNull |} demo_world
    = demo_world.
Proof.
  assert (H : id_inv demo_world) by (vm_compute; reflexivity).
  split; [exact H|].
  apply (remote_awareness_never_overwrites_local
           {| upd_clientID := VStr "sock-A"; upd_state := VNull |} demo_world H).
  vm_compute. reflexivity.
Defined.

(** C4: the code at the failing input.  The guard of the inbound handler
    compares the message's [clientID] with the socket's current id, while
    the local entry is stored under the id the socket had at the mount.
    After the socket has reconnected under a new id, a message that names
    the local [clientID] (the echo of the participant's own broadcast) is
    not ignored: it replaces the local entry and the subscribers are
    called.  Before the reconnection the same message is ignored. *)
Theorem local_entry_overwritten_after_reconnect :
  let u := {| upd_clientID := VStr "sock-A"; upd_state := VNum 9 |} in
  let w := run demo_props [(10, SocketIdChanged (VStr "sock-A2"))] demo_world in
  let w' := run demo_props [(20, SocketAwareness u)] w in
  run demo_props [(20, SocketAwareness u)] demo_world
    = advance demo_props 20 demo_world ∧
  upd_clientID u = clientID (awareness w) ∧
  getLocalState (awareness w) = VRef 2%positive ∧
  getLocalState (awareness w') = VNum 9 ∧
  calls w' = calls w ++ [(binding_handler, states (awareness w'))].
Proof. vm_compute. repeat split. Qed.

(** ** [setLocalStateField] and the previous state object *)

Lemma setProp_ordinary (l : loc) (field : string) (v : value) (h : Heap) :
  field ≠ "__proto__"%string → setProp l field v h = Ok (set_own l field v h).
Proof. intros Hf. unfold setProp. destruct (decide _); [contradiction|reflexivity]. Qed.

Lemma getProp_set_own (l : loc) (field : string) (v : value) (h : Heap) :
  getProp l field (set_own l field v h) = v.
Proof.
  unfold getProp, set_own, deref. rewrite lookup_insert_eq. simpl.
  by rewrite lookup_insert_eq.
Qed.

Lemma getProp_set_own_ne (l l' : loc) (f f' : string) (v : value) (h : Heap) :
  l ≠ l' ∨ f ≠ f' → getProp l' f' (set_own l f v h) = getProp l' f' h.
Proof.
  intros Hne. unfold getProp, set_own, deref. destruct (decide (l = l')) as [->|Hl].
  - rewrite lookup_insert_eq. simpl. rewrite lookup_insert_ne; [reflexivity|].
    destruct Hne; congruence.
  - by rewrite lookup_insert_ne.
Qed.

Lemma setLocalStateField_object (field : string) (v : value) (w : World) (l : loc) :
  field ≠ "__proto__"%string →
  getLocalState (awareness w) = VRef l →
  setLocalStateField field v w
    = Ok (setLocalState (VRef l) (with_heap (set_own l field v (heap w)) w)).
Proof.
  intros Hf Hl. unfold setLocalStateField, assign_and_publish. rewrite Hl. simpl.
  rewrite setProp_ordinary by exact Hf. reflexivity.
Qed.

(** C2, as stated, fails: with a local state object in place, the object a
    caller obtained from [getLocalState()] before the call has the new field
    after it. *)
Lemma setLocalStateField_previous_object_changed :
  ¬ (∀ (field : string) (v : value) (w w' : World) (l : loc),
       getLocalState (awareness w) = VRef l →
       setLocalStateField field v w = Ok w' →
       heap w' !! l = heap w !! l).
Proof.
  intros H.
  pose (w' := setLocalState (VRef 2%positive)
                (with_heap (set_own 2%positive "cursor" (VNum 5) (heap demo_world))
                   demo_world)).
  assert (E : heap w' !! 2%positive = heap demo_world !! 2%positive).
  { apply (H "cursor"%string (VNum 5) demo_world w' 2%positive);
      vm_compute; reflexivity. }
  assert (E' : getProp 2%positive "cursor" (heap w')
               = getProp 2%positive "cursor" (heap demo_world)).
  { unfold getProp, deref. rewrite E. reflexivity. }
  vm_compute in E'. discriminate E'.
Qed.

(** C2, amended.  For every field name other than [__proto__] (whose
    assignment runs the prototype setter instead of storing a field),
    [setLocalStateField] leaves the local entry holding the prior record
    with the one field set.  When a local state object exists it is that
    same object, updated in place: the entry still refers to it, a
    reference obtained earlier sees the new field, its prototype is kept
    and no other object changes.  When there is no local state (or a falsy
    one) the entry refers to a fresh plain object [{field: value}] and no
    existing object changes. *)
Theorem setLocalStateField_updates_in_place (field : string) (v : value) (w : World)
    (Hfield : field ≠ "__proto__"%string) :
  (∀ l, getLocalState (awareness w) = VRef l →
     ∃ w', setLocalStateField field v w = Ok w' ∧
           getLocalState (awareness w') = VRef l ∧
           heap w' !! l
             = Some {| obj_proto := obj_proto (deref (heap w) l);
                       fields := <[field := v]> (fields (deref (heap w) l)) |} ∧
           ∀ l', l' ≠ l → heap w' !! l' = heap w !! l') ∧
  (truthy (getLocalState (awareness w)) = false →
     ∃ w' l, setLocalStateField field v w = Ok w' ∧
             getLocalState (awareness w') = VRef l ∧
             heap w !! l = None ∧
             heap w' !! l = Some (plain {[ field := v ]}) ∧
             ∀ l', l' ≠ l → heap w' !! l' = heap w !! l').
Proof.
  split.
  - intros l Hl. rewrite (setLocalStateField_object field v w l Hfield Hl).
    eexists. split; [reflexivity|]. split; [|split].
    + unfold getLocalState, setLocalState. simpl. by rewrite lookup_insert_eq.
    + unfold setLocalState, set_own. simpl. by rewrite lookup_insert_eq.
    + intros l' Hne. unfold setLocalState, set_own. simpl.
      by rewrite lookup_insert_ne.
  - intros Hf. unfold setLocalStateField, assign_and_publish. rewrite Hf. unfold alloc.
    set (l := fresh (dom (heap w))).
    assert (Hfresh : heap w !! l = None).
    { apply not_elem_of_dom. apply is_fresh. }
    rewrite setProp_ordinary by exact Hfield.
    eexists. exists l. split; [reflexivity|]. split; [|split; [|split]].
    + unfold getLocalState, setLocalState. simpl. by rewrite lookup_insert_eq.
    + exact Hfresh.
    + unfold setLocalState, set_own, deref. simpl. rewrite !lookup_insert_eq. simpl.
      reflexivity.
    + intros l' Hne. unfold setLocalState, set_own. simpl.
      by rewrite !lookup_insert_ne.
Qed.

Lemma setLocalStateField_updates_in_place_witness :
  "cursor"%string ≠ "__proto__"%string ∧
  getLocalState (awareness demo_world) = VRef 2%positive ∧
  getProp 2%positive "cursor" (heap demo_world) = VUndef ∧
  ∃ w', setLocalStateField "cursor" (VNum 5) demo_world = Ok w' ∧
        getLocalState (awareness w') = VRef 2%positive ∧
        getProp 2%positive "cursor" (heap w') = VNum 5.
Proof.
  assert (Hf : "cursor"%string ≠ "__proto__"%string) by (vm_compute; discriminate).
  assert (Hl : getLocalState (awareness demo_world) = VRef 2%positive)
    by (vm_compute; reflexivity).
  split; [exact Hf|]. split; [exact Hl|]. split; [vm_compute; reflexivity|].
  destruct (proj1 (setLocalStateField_updates_in_place "cursor" (VNum 5) demo_world Hf)
              2%positive Hl) as (w' & E & Es & Eh & _).
  exists w'. split; [exact E|]. split; [exact Es|].
  unfold getProp, deref. rewrite Eh. simpl. by rewrite lookup_insert_eq.
Defined.

(** ** Marker expiry *)

Lemma fire_decorations (p : Props) (w : World) (tm : Timer) :
  isDisposed (editor w) = false →
  decorations (editor (fire p w tm))
    = filter (λ d, d.1 ∉ expired_by tm) (decorations (editor w)).
Proof.
  intros Hd. unfold fire, expired_by. destruct (cb tm) as [|ids].
  - simpl. symmetry. induction (decorations (editor w)) as [|d l IH]; [reflexivity|].
    rewrite filter_cons_True by apply not_elem_of_nil. by rewrite IH.
  - destruct (expire_cb_spec ids (with_now (Z.max (now w) (due tm)) w))
      as (_ & _ & _ & _ & E).
    rewrite E. simpl. rewrite Hd. reflexivity.
Qed.

Lemma fire_disposed (p : Props) (w : World) (tm : Timer) :
  isDisposed (editor w) = true → editor (fire p w tm) = editor w.
Proof.
  intros Hd. unfold fire. destruct (cb tm) as [|ids]; simpl; [reflexivity|].
  unfold expire_cb, deltaDecorations. simpl. rewrite Hd. reflexivity.
Qed.

Lemma foldl_fire_disposed (p : Props) (l : list Timer) (w : World) :
  isDisposed (editor w) = true → editor (foldl (fire p) w l) = editor w.
Proof.
  revert w. induction l as [|tm l IH]; intros w Hd; simpl; [reflexivity|].
  rewrite IH; [apply fire_disposed, Hd|].
  rewrite fire_disposed by exact Hd. exact Hd.
Qed.


(** ** The timer queue *)

Lemma elem_of_insert_timer (x tm : Timer) (q : list Timer) :
  x ∈ insert_timer tm q ↔ x = tm ∨ x ∈ q.
Proof.
  induction q as [|y q IH]; simpl.
  - rewrite list_elem_of_singleton, elem_of_nil. tauto.
  - destruct (decide (due y ≤ due tm)).
    + rewrite !elem_of_cons, IH. tauto.
    + rewrite !elem_of_cons. tauto.
Qed.

Section FilterQueue.
Context (P : Timer → Prop) `{!∀ x, Decision (P x)}.

Lemma filter_insert_timer_one (tm : Timer) (q : list Timer) :
  P tm → filter P q = [] → filter P (insert_timer tm q) = [tm].
Proof.
  intros Htm. induction q as [|y q IH]; simpl; intros Hq.
  - by rewrite filter_cons_True, filter_nil.
  - destruct (decide (P y)) as [Hy|Hy].
    { rewrite filter_cons_True in Hq by assumption. discriminate. }
    rewrite filter_cons_False in Hq by assumption.
    destruct (decide (due y ≤ due tm)).
    + rewrite filter_cons_False by assumption. apply IH, Hq.
    + rewrite filter_cons_True, filter_cons_False, Hq by assumption. reflexivity.
Qed.

Lemma filter_insert_timer_skip (tm : Timer) (q : list Timer) :
  ¬ P tm → filter P (insert_timer tm q) = filter P q.
Proof.
  intros Htm. induction q as [|y q IH]; simpl.
  - by rewrite filter_cons_False.
  - destruct (decide (due y ≤ due tm)).
    + destruct (decide (P y)).
      * rewrite !filter_cons_True by assumption. by rewrite IH.
      * rewrite !filter_cons_False by assumption. apply IH.
    + by rewrite filter_cons_False.
Qed.

Lemma filter_nil_iff (q : list Timer) : filter P q = [] ↔ ∀ x, x ∈ q → ¬ P x.
Proof.
  split.
  - intros Hq x Hx HP. eapply filter_nil_not_elem_of; eauto.
  - intros Hall. induction q as [|y q IH]; [reflexivity|].
    rewrite filter_cons_False by (apply Hall; left).
    apply IH. intros x Hx. apply Hall. by right.
Qed.

End FilterQueue.

Lemma filter_swap {A} (P Q : A → Prop) `{!∀ x, Decision (P x)} `{!∀ x, Decision (Q x)}
    (l : list A) :
  filter P (filter Q l) = filter Q (filter P l).
Proof. rewrite !list_filter_filter. apply list_filter_iff. tauto. Qed.

(** ** What the timers emit *)

Lemma fire_emitted (p : Props) (w : World) (tm : Timer) :
  emitted (socket (fire p w tm))
    = emitted (socket w)
      ++ (if is_save_timer tm
          then [(Z.max (now w) (due tm), SaveCode (roomId p) (content (editor w)) (language p))]
          else []) ∧
  now (fire p w tm) = Z.max (now w) (due tm).
Proof.
  unfold fire, is_save_timer. destruct (cb tm) as [|ids]; simpl; [split; reflexivity|].
  unfold expire_cb. simpl. destruct (isDisposed (editor w)); simpl;
    rewrite app_nil_r; split; reflexivity.
Qed.

Lemma foldl_fire_emitted (p : Props) (l : list Timer) (w : World) :
  emitted (socket (foldl (fire p) w l))
    = emitted (socket w) ++ fired_saves p (content (editor w)) (now w) l.
Proof.
  revert w. induction l as [|tm l IH]; intros w; simpl; [by rewrite app_nil_r|].
  rewrite IH. destruct (fire_emitted p w tm) as [E1 E2]. rewrite E1, E2.
  destruct (fire_frame p w tm) as (_&_&_&_&_&_&_&_&_&_&_&Ec&_). rewrite Ec.
  by rewrite <- app_assoc.
Qed.

Lemma foldl_fire_now (p : Props) (l : list Timer) (w : World) (T : Z) :
  now w ≤ T → (∀ x, x ∈ l → due x ≤ T) →
  now w ≤ now (foldl (fire p) w l) ≤ T.
Proof.
  revert w. induction l as [|tm l IH]; intros w Hw Hl; simpl; [lia|].
  destruct (fire_emitted p w tm) as [_ E].
  assert (Htm : due tm ≤ T) by (apply Hl; left).
  specialize (IH (fire p w tm)). rewrite E in IH.
  destruct IH as [H1 H2]; [lia|intros x Hx; apply Hl; by right|]. lia.
Qed.

Lemma advance_now (p : Props) (t : Z) (w : World) : now w ≤ t → now (advance p t w) = t.
Proof.
  intros Hw. unfold advance. simpl.
  pose proof (foldl_fire_now p (filter (λ tm, due tm ≤ t) (timers w))
                (with_timers (filter (λ tm, ¬ due tm ≤ t) (timers w)) (next_timer w) w) t)
    as H.
  simpl in H. destruct H as [H1 H2]; [exact Hw| |lia].
  intros x Hx. apply list_elem_of_filter in Hx. tauto.
Qed.

Lemma fired_saves_are_saves (p : Props) (c : string) (clock : Z) (l : list Timer) :
  filter (λ m, is_save m) (fired_saves p c clock l) = fired_saves p c clock l.
Proof.
  revert clock. induction l as [|tm l IH]; intros clock; simpl; [reflexivity|].
  destruct (is_save_timer tm); simpl; [|apply IH].
  rewrite filter_cons_True by exact I. by rewrite IH.
Qed.

Lemma advance_saves (p : Props) (t : Z) (w : World) :
  saves (advance p t w)
    = saves w ++ fired_saves p (content (editor w)) (now w)
                   (filter (λ tm, due tm ≤ t) (timers w)).
Proof.
  unfold saves, advance. simpl. rewrite foldl_fire_emitted. simpl.
  by rewrite filter_app, fired_saves_are_saves.
Qed.

Lemma fired_saves_none (p : Props) (c : string) (clock : Z) (l : list Timer) :
  filter (λ tm, is_save_timer tm) l = [] → fired_saves p c clock l = [].
Proof.
  revert clock. induction l as [|tm l IH]; intros clock Hl; simpl; [reflexivity|].
  destruct (is_save_timer tm) eqn:E.
  - rewrite filter_cons_True in Hl by (rewrite E; exact I). discriminate.
  - rewrite filter_cons_False in Hl by (rewrite E; exact id). simpl. by apply IH.
Qed.

Lemma fired_saves_one (p : Props) (c : string) (clock : Z) (l : list Timer) (tm : Timer) :
  filter (λ x, is_save_timer x) l = [tm] →
  ∃ τ, fired_saves p c clock l = [(τ, SaveCode (roomId p) c (language p))] ∧
       due tm ≤ τ ∧
       ∀ T, clock ≤ T → (∀ x, x ∈ l → due x ≤ T) → τ ≤ T.
Proof.
  revert clock. induction l as [|x l IH]; intros clock Hl; simpl.
  - rewrite filter_nil in Hl. discriminate.
  - destruct (is_save_timer x) eqn:E.
    + rewrite filter_cons_True in Hl by (rewrite E; exact I).
      injection Hl as -> Hl. exists (Z.max clock (due tm)).
      rewrite (fired_saves_none _ _ _ _ Hl). split; [reflexivity|]. split; [lia|].
      intros T HT Hall. specialize (Hall tm (list_elem_of_here _ _)). lia.
    + rewrite filter_cons_False in Hl by (rewrite E; exact id). simpl.
      destruct (IH (Z.max clock (due x)) Hl) as (τ & E1 & E2 & E3).
      exists τ. split; [exact E1|]. split; [exact E2|].
      intros T HT Hall. apply E3.
      * specialize (Hall x (list_elem_of_here _ _)). lia.
      * intros y Hy. apply Hall. by right.
Qed.

(** ** The auto-save debounce *)

Lemma clearTimeout_no_saves (w : World) :
  save_wf w → pending_saves (clearTimeout (saveTimeout w) w) = [].
Proof.
  intros Hwf. unfold pending_saves. apply filter_nil_iff. intros x Hx Hs.
  specialize (Hwf x). destruct (saveTimeout w) as [old|] eqn:E; simpl in Hx.
  - apply list_elem_of_filter in Hx. destruct Hx as [Hne Hx].
    specialize (Hwf Hx Hs). congruence.
  - specialize (Hwf Hx Hs). discriminate.
Qed.

Lemma on_content_change_spec (w : World) :
  save_wf w →
  let w' := on_content_change w in
  pending_saves w' = [ {| tid := next_timer w; due := now w + 2000; cb := SaveCb |} ] ∧
  save_wf w' ∧ emitted (socket w') = emitted (socket w) ∧ now w' = now w ∧
  editor w' = editor w.
Proof.
  intros Hwf w'. pose proof (clearTimeout_no_saves w Hwf) as Hclear.
  assert (Hnow : now (clearTimeout (saveTimeout w) w) = now w)
    by (destruct (saveTimeout w); reflexivity).
  assert (Hnext : next_timer (clearTimeout (saveTimeout w) w) = next_timer w)
    by (destruct (saveTimeout w); reflexivity).
  assert (Hp : pending_saves w'
               = [ {| tid := next_timer w; due := now w + 2000; cb := SaveCb |} ]).
  { unfold w', on_content_change, pending_saves. simpl. rewrite Hnow, Hnext.
    apply filter_insert_timer_one; [exact I|exact Hclear]. }
  split; [exact Hp|]. split; [|split; [|split]].
  - intros tm Hin Hs.
    assert (Htm : tm ∈ pending_saves w') by (apply list_elem_of_filter; auto).
    rewrite Hp in Htm. apply list_elem_of_singleton in Htm. subst tm.
    unfold w', on_content_change. simpl. by rewrite Hnext.
  - unfold w', on_content_change. simpl. destruct (saveTimeout w); reflexivity.
  - unfold w', on_content_change. simpl. exact Hnow.
  - unfold w', on_content_change. simpl. destruct (saveTimeout w); reflexivity.
Qed.

Lemma advance_save_wf (p : Props) (t : Z) (w : World) : save_wf w → save_wf (advance p t w).
Proof.
  intros Hwf tm Hin Hs.
  destruct (advance_awareness p t w) as (_&_&_&_&Es&_&_&_&_&Et).
  rewrite Et in Hin. apply list_elem_of_filter in Hin. rewrite Es. apply Hwf; tauto.
Qed.

Lemma advance_pending_saves (p : Props) (t : Z) (w : World) :
  pending_saves (advance p t w) = filter (λ tm, ¬ due tm ≤ t) (pending_saves w).
Proof.
  unfold pending_saves. destruct (advance_awareness p t w) as (_&_&_&_&_&_&_&_&_&Et).
  rewrite Et. apply filter_swap.
Qed.

(** While the one pending save is not due, time passes without a save. *)
Lemma advance_before_deadline (p : Props) (t : Z) (w : World) (tm : Timer) :
  pending_saves w = [tm] → t < due tm →
  saves (advance p t w) = saves w ∧ pending_saves (advance p t w) = [tm].
Proof.
  intros Hp Ht. split.
  - rewrite advance_saves, fired_saves_none; [apply app_nil_r|].
    rewrite filter_swap. fold (pending_saves w). rewrite Hp.
    rewrite filter_cons_False by lia. reflexivity.
  - rewrite advance_pending_saves, Hp. rewrite filter_cons_True by lia. reflexivity.
Qed.

(** Once it is due it runs, once, with the content of that moment. *)
Lemma advance_past_deadline (p : Props) (t : Z) (w : World) (tm : Timer) :
  pending_saves w = [tm] → due tm ≤ t →
  (∃ τ, saves (advance p t w)
          = saves w ++ [(τ, SaveCode (roomId p) (content (editor w)) (language p))] ∧
        due tm ≤ τ ∧ (now w ≤ t → τ ≤ t)) ∧
  pending_saves (advance p t w) = [].
Proof.
  intros Hp Ht. split.
  - assert (Hready : filter (λ x, is_save_timer x) (filter (λ x, due x ≤ t) (timers w))
                     = [tm]).
    { rewrite filter_swap. fold (pending_saves w). rewrite Hp.
      rewrite filter_cons_True by lia. reflexivity. }
    destruct (fired_saves_one p (content (editor w)) (now w) _ _ Hready)
      as (τ & E1 & E2 & E3).
    exists τ. rewrite advance_saves, E1. split; [reflexivity|]. split; [exact E2|].
    intros Hnow. apply E3; [exact Hnow|].
    intros x Hx. apply list_elem_of_filter in Hx. tauto.
  - rewrite advance_pending_saves, Hp. rewrite filter_cons_False by lia. reflexivity.
Qed.

Lemma change_arms (p : Props) (w : World) (t : Z) (c : string) :
  save_wf w → now w ≤ t →
  armed (step p w (t, ModelContentChanged c)) t c ∧
  saves (step p w (t, ModelContentChanged c)) = saves (advance p t w).
Proof.
  intros Hwf Hnow.
  set (w1 := with_editor (set_content c (editor (advance p t w))) (advance p t w)).
  change (step p w (t, ModelContentChanged c)) with (on_content_change w1).
  assert (Hwf1 : save_wf w1) by (apply (advance_save_wf p t w Hwf)).
  destruct (on_content_change_spec w1 Hwf1) as (Hp & Hwf' & Hem & Hn & He).
  assert (Hn1 : now w1 = t) by (apply advance_now, Hnow).
  split.
  - split; [exact Hwf'|]. split; [by rewrite Hn|]. split; [by rewrite He|].
    eexists. split; [exact Hp|]. rewrite <- Hn1. reflexivity.
  - unfold saves. rewrite Hem. reflexivity.
Qed.

Lemma last_cons_default {A} (l : list A) (x d : A) :
  List.last (x :: l) d = List.last l x.
Proof.
  revert x d. induction l as [|a l IH]; intros x d; [reflexivity|].
  change (List.last (x :: a :: l) d) with (List.last (a :: l) d).
  by rewrite (IH a d), (IH a x).
Qed.

Lemma burst_keeps_armed (p : Props) (rest : list (Z * string)) :
  ∀ (w : World) (t : Z) (c : string),
    armed w t c → spaced t rest →
    armed (run p (burst_sched rest) w) (List.last rest (t, c)).1 (List.last rest (t, c)).2 ∧
    saves (run p (burst_sched rest) w) = saves w.
Proof.
  induction rest as [|[t' c'] rest IH]; intros w t c Harm Hsp.
  - split; [exact Harm|reflexivity].
  - destruct Hsp as [Hlt Hsp]. simpl in Hlt, Hsp.
    destruct Harm as (Hwf & Hnow & Hc & tm & Hp & Hdue).
    destruct (change_arms p w t' c' Hwf ltac:(lia)) as [Harm' Hs'].
    destruct (advance_before_deadline p t' w tm Hp ltac:(lia)) as [Hs _].
    destruct (IH _ t' c' Harm' Hsp) as [IH1 IH2].
    change (run p (burst_sched ((t', c') :: rest)) w)
      with (run p (burst_sched rest) (step p w (t', ModelContentChanged c'))).
    replace (List.last ((t', c') :: rest) (t, c)) with (List.last rest (t', c')).
    + split; [exact IH1|]. rewrite IH2, Hs', Hs. reflexivity.
    + symmetry. apply last_cons_default.
Qed.

Lemma spaced_take (k : nat) (rest : list (Z * string)) (t : Z) :
  spaced t rest → spaced t (take k rest).
Proof.
  revert k t. induction rest as [|tc rest IH]; intros k t Hsp; destruct k; try exact I.
  destruct Hsp as [H1 H2]. split; [exact H1|]. apply IH, H2.
Qed.

(** C5.  A burst of content changes, each less than 2000 ms after the
    previous one, emits no [save-code] while it lasts (after any number of
    its changes the saves are those from before the burst) nor during the
    2000 ms after its last change; exactly then one [save-code] is emitted,
    carrying the text the editor holds at that moment, which is the text of
    the last change; and no save remains pending. *)
Theorem debounce_collapses_burst (p : Props) (w : World) (t1 : Z) (c1 : string)
    (rest : list (Z * string))
    (Hwf : save_wf w) (Hnow : now w ≤ t1) (Hsp : spaced t1 rest) :
  let before := saves (advance p t1 w) in
  let wb := run p (burst_sched ((t1, c1) :: rest)) w in
  let tn := (List.last rest (t1, c1)).1 in
  let cn := (List.last rest (t1, c1)).2 in
  (∀ k, saves (run p (burst_sched ((t1, c1) :: take k rest)) w) = before) ∧
  saves wb = before ∧
  content (editor wb) = cn ∧
  (∀ t, t < tn + 2000 → saves (advance p t wb) = before) ∧
  saves (advance p (tn + 2000) wb)
    = before ++ [(tn + 2000, SaveCode (roomId p) cn (language p))] ∧
  (∀ t, tn + 2000 ≤ t →
     (∃ τ, saves (advance p t wb) = before ++ [(τ, SaveCode (roomId p) cn (language p))]) ∧
     pending_saves (advance p t wb) = []).
Proof.
  intros before wb tn cn.
  destruct (change_arms p w t1 c1 Hwf Hnow) as [Harm Hs].
  destruct (burst_keeps_armed p rest _ t1 c1 Harm Hsp) as [Harm' Hs'].
  change (run p (burst_sched rest) (step p w (t1, ModelContentChanged c1))) with wb in *.
  fold tn cn in Harm'. fold before in Hs. rewrite Hs in Hs'.
  destruct Harm' as (Hwf' & Hn' & Hc' & tm & Hp & Hdue).
  split.
  { intros k.
    destruct (burst_keeps_armed p (take k rest) _ t1 c1 Harm (spaced_take k rest t1 Hsp))
      as [_ Hk].
    change (run p (burst_sched ((t1, c1) :: take k rest)) w)
      with (run p (burst_sched (take k rest)) (step p w (t1, ModelContentChanged c1))).
    by rewrite Hk. }
  split; [exact Hs'|]. split; [exact Hc'|]. split; [|split].
  - intros t Ht. destruct (advance_before_deadline p t wb tm Hp ltac:(lia)) as [E _].
    by rewrite E.
  - destruct (advance_past_deadline p (tn + 2000) wb tm Hp ltac:(lia))
      as [(τ & E1 & E2 & E3) _].
    rewrite E1, Hs', Hc'. repeat f_equal. specialize (E3 ltac:(lia)). lia.
  - intros t Ht.
    destruct (advance_past_deadline p t wb tm Hp ltac:(lia)) as [(τ & E1 & _) E4].
    split; [|exact E4]. exists τ. by rewrite E1, Hs', Hc'.
Qed.

Lemma handle_save_wf (p : Props) (i : input) (w : World) :
  save_wf w → save_wf (handle p i w).
Proof.
  intros Hwf0.
  apply (handle_inv p (λ _, True) save_wf);
    [intros w0 d H; exact H| |done|done|exact I|exact Hwf0].
  clear. intros i w Hn _ Hwf.
  destruct i as [u|u o|u|m|pos|text|f v|ev h|ev h| | |id]; simpl; try exact Hwf.
  - destruct (doc_destroyed (ydoc w)); exact Hwf.
  - by destruct (Hn u o).
  - destruct (decide _); [|exact Hwf]. unfold on_yjs_awareness.
    destruct (strict_neq _ _); exact Hwf.
  - destruct (decide _); [|exact Hwf].
    unfold on_remote_cursor, renderRemoteCursor.
    destruct (deltaDecorations _ _ _) as [ids e0].
    intros tm Hin Hs. simpl in Hin. apply elem_of_insert_timer in Hin.
    destruct Hin as [->|Hin]; [destruct Hs|]. by apply Hwf.
  - apply (on_content_change_spec (with_editor (set_content text (editor w)) w)).
    exact Hwf.
  - destruct (setLocalStateField f v w) as [w'|] eqn:E; [|exact Hwf].
    apply setLocalStateField_ids in E. destruct E as (_&_&_&_&Et&Es&_).
    intros tm. rewrite Et, Es. apply Hwf.
Qed.

Lemma step_save_wf (p : Props) (w : World) (ti : Z * input) :
  save_wf w → save_wf (step p w ti).
Proof. intros H. apply handle_save_wf, advance_save_wf, H. Qed.

Lemma run_save_wf (p : Props) (sched : list (Z * input)) (w : World) :
  save_wf w → save_wf (run p sched w).
Proof.
  unfold run. revert w. induction sched as [|ti sched IH]; intros w H; simpl; [exact H|].
  apply IH, step_save_wf, H.
Qed.

Lemma handleEditorDidMount_timers (p : Props) (s : Socket) (e : MonacoEditor) (t0 : Z)
    (w : World) :
  handleEditorDidMount p s e t0 = Ok w →
  timers w = [] ∧ saveTimeout w = None ∧ editor w = e ∧ now w = t0.
Proof.
  unfold handleEditorDidMount.
  destruct (alloc _ _) as [l h] eqn:Ea.
  destruct (setLocalStateField _ _ _) as [w1|] eqn:E; [|discriminate].
  intros [= <-]. apply setLocalStateField_ids in E. simpl in *.
  destruct E as (_&_&_&_&Et&Es&Ee&_&En). auto.
Qed.

Lemma handleEditorDidMount_save_wf (p : Props) (s : Socket) (e : MonacoEditor) (t0 : Z)
    (w : World) :
  handleEditorDidMount p s e t0 = Ok w → save_wf w.
Proof.
  intros H. apply handleEditorDidMount_timers in H. destruct H as (Et & _).
  intros tm Hin. rewrite Et in Hin. by apply elem_of_nil in Hin.
Qed.

(** The mount itself cannot throw: there is no local state yet. *)
Lemma handleEditorDidMount_returns (p : Props) (s : Socket) (e : MonacoEditor) (t0 : Z) :
  ∃ w, handleEditorDidMount p s e t0 = Ok w.
Proof.
  unfold handleEditorDidMount.
  destruct (alloc _ _) as [l h] eqn:Ea.
  unfold setLocalStateField, getLocalState. simpl. rewrite lookup_empty. simpl.
  destruct (alloc ∅ h) as [l' h']. eexists. reflexivity.
Qed.

(** ** Teardown and the pending save *)

Lemma cleanup_frame (w : World) :
  timers (cleanup w) = timers w ∧ saveTimeout (cleanup w) = saveTimeout w ∧
  editor (cleanup w) = editor w ∧ emitted (socket (cleanup w)) = emitted (socket w) ∧
  now (cleanup w) = now w.
Proof. repeat split. Qed.

Lemma cleanup_listeners (w : World) (ev : string) :
  ev ∈ ["yjs-sync"; "yjs-awareness"; "remote-cursor"]%string →
  ev ∉ listeners (socket (cleanup w)).
Proof.
  intros Hev Hin. unfold cleanup, socket_off in Hin. simpl in Hin.
  apply list_elem_of_filter in Hin. destruct Hin as [H1 Hin].
  apply list_elem_of_filter in Hin. destruct Hin as [H2 Hin].
  apply list_elem_of_filter in Hin. destruct Hin as [H3 Hin].
  repeat (apply elem_of_cons in Hev; destruct Hev as [Hev|Hev]; [congruence|]).
  by apply elem_of_nil in Hev.
Qed.

(** The effect cleanup never reaches the debounce timer: whatever save is
    pending before it is pending after it, and runs at its deadline. *)
Lemma cleanup_keeps_pending_save (p : Props) (w : World) (tm : Timer) (t : Z) :
  pending_saves w = [tm] → due tm ≤ t →
  ∃ τ, saves (advance p t (cleanup w))
       = saves w ++ [(τ, SaveCode (roomId p) (content (editor w)) (language p))].
Proof.
  intros Hp Ht.
  destruct (advance_past_deadline p t (cleanup w) tm Hp Ht) as [(τ & E & _) _].
  exists τ. exact E.
Qed.

(** C3: the code at the failing input.  A content change at time 0, the
    effect cleanup and the disposal of the editor at time 1000: no
    [save-code] has been emitted by then, and at time 2000 the debounce
    timer, which the cleanup did not cancel, emits one.  Its content is
    what [getValue()] answers on the disposed editor, the empty string, not
    the text typed.  When the cleanup runs without the editor being
    disposed, the late [save-code] carries the text. *)
Theorem save_fires_after_teardown :
  let w := run demo_props
             [(0, ModelContentChanged "a"); (1000, Cleanup); (1000, EditorDisposed)]
             demo_world in
  let w' := run demo_props [(0, ModelContentChanged "a"); (1000, Cleanup)] demo_world in
  saves w = [] ∧
  listeners (socket w) = [] ∧
  isDisposed (editor w) = true ∧
  saves (advance demo_props 2000 w)
    = [(2000, SaveCode (VStr "r1") EmptyString (VStr "javascript"))] ∧
  saves w' = [] ∧
  saves (advance demo_props 2000 w')
    = [(2000, SaveCode (VStr "r1") "a" (VStr "javascript"))].
Proof. vm_compute. repeat split. Qed.

Lemma debounce_collapses_burst_witness :
  let w := run demo_props (burst_sched [(0, "a"); (1, "ab"); (2, "abc")]%string) demo_world in
  saves w = [] ∧
  saves (advance demo_props 2002 w)
    = [(2002, SaveCode (VStr "r1") "abc" (VStr "javascript"))].
Proof.
  assert (Hwf : save_wf demo_world).
  { apply (handleEditorDidMount_save_wf demo_props demo_socket demo_editor 0).
    vm_compute. reflexivity. }
  assert (Hnow : now demo_world ≤ 0) by (vm_compute; discriminate).
  assert (Hsp : spaced 0 [(1, "ab"); (2, "abc")]%string) by (simpl; lia).
  destruct (debounce_collapses_burst demo_props demo_world 0 "a"
              [(1, "ab"); (2, "abc")]%string Hwf Hnow Hsp)
    as (_ & H1 & _ & _ & H2 & _).
  split; [exact H1|exact H2].
Defined.

(** ** Remote cursor markers *)

Lemma foldl_fire_decorations (p : Props) (l : list Timer) (w : World) :
  isDisposed (editor w) = false →
  decorations (editor (foldl (fire p) w l))
    = filter (λ d, d.1 ∉ l ≫= expired_by) (decorations (editor w)).
Proof.
  revert w. induction l as [|tm l IH]; intros w Hd; simpl.
  - symmetry. induction (decorations (editor w)) as [|d ds IHd]; [reflexivity|].
    rewrite filter_cons_True by apply not_elem_of_nil. by rewrite IHd.
  - destruct (fire_frame p w tm) as (_&_&_&_&_&_&_&_&_&_&_&_&Ed&_).
    rewrite IH by congruence. rewrite fire_decorations by exact Hd.
    rewrite list_filter_filter. apply list_filter_iff. intros d.
    rewrite elem_of_app. tauto.
Qed.

Lemma advance_decorations (p : Props) (t : Z) (w : World) :
  isDisposed (editor w) = false →
  decorations (editor (advance p t w))
    = filter (λ d, d.1 ∉ filter (λ tm, due tm ≤ t) (timers w) ≫= expired_by)
        (decorations (editor w)).
Proof.
  intros Hd. unfold advance. simpl. by rewrite foldl_fire_decorations.
Qed.

Lemma on_remote_cursor_frame (m : RemoteCursor) (w : World) :
  let w' := on_remote_cursor m w in
  socket w' = socket w ∧ heap w' = heap w ∧ awareness w' = awareness w ∧
  ydoc w' = ydoc w ∧ binding_destroyed w' = binding_destroyed w ∧
  saveTimeout w' = saveTimeout w ∧ calls w' = calls w ∧ now w' = now w ∧
  content (editor w') = content (editor w) ∧
  isDisposed (editor w') = isDisposed (editor w) ∧
  next_timer w' = S (next_timer w).
Proof.
  unfold on_remote_cursor, renderRemoteCursor, deltaDecorations. simpl.
  destruct (isDisposed (editor w)) eqn:E; simpl; repeat split; exact E.
Qed.

Lemma on_remote_cursor_disposed (m : RemoteCursor) (w : World) :
  isDisposed (editor w) = true →
  editor (on_remote_cursor m w) = editor w ∧
  timers (on_remote_cursor m w)
    = insert_timer {| tid := next_timer w; due := now w + 3000; cb := ExpireCb [] |}
        (timers w).
Proof.
  intros Hd. unfold on_remote_cursor, renderRemoteCursor, deltaDecorations. simpl.
  rewrite Hd. split; reflexivity.
Qed.

Lemma on_remote_cursor_spec (m : RemoteCursor) (w : World) :
  isDisposed (editor w) = false →
  let d := next_decoration (editor w) in
  let mk := (d, {| dec_owner := rc_userId m; dec_line := lineNumber (rc_position m);
                   dec_column := column (rc_position m) |}) in
  let w' := on_remote_cursor m w in
  decorations (editor w') = decorations (editor w) ++ [mk] ∧
  next_decoration (editor w') = S d ∧
  timers w'
    = insert_timer {| tid := next_timer w; due := now w + 3000; cb := ExpireCb [d] |}
        (timers w) ∧
  isDisposed (editor w') = isDisposed (editor w) ∧ now w' = now w ∧
  saveTimeout w' = saveTimeout w ∧ emitted (socket w') = emitted (socket w).
Proof.
  intros Hd d mk w'. unfold w', on_remote_cursor, renderRemoteCursor, deltaDecorations.
  simpl. rewrite Hd. simpl.
  split; [|split; [|repeat split]].
  - f_equal. induction (decorations (editor w)) as [|x ds IH]; [reflexivity|].
    rewrite filter_cons_True by apply not_elem_of_nil. by rewrite IH.
  - unfold d. lia.
Qed.

Lemma on_remote_cursor_markers_wf (m : RemoteCursor) (w : World) :
  markers_wf w → markers_wf (on_remote_cursor m w).
Proof.
  intros [H1 H2]. destruct (isDisposed (editor w)) eqn:Edis.
  { destruct (on_remote_cursor_disposed m w Edis) as [Ee Et]. split.
    - rewrite Ee. exact H1.
    - intros tm i. rewrite Et, Ee, elem_of_insert_timer.
      intros [->|Hin] Hi; [by apply elem_of_nil in Hi|]. by apply (H2 tm i). }
  destruct (on_remote_cursor_spec m w Edis) as (Ed & En & Et & _).
  split.
  - intros d. rewrite Ed, En, elem_of_app, list_elem_of_singleton.
    intros [Hd| ->]; [specialize (H1 d Hd); lia|simpl; lia].
  - intros tm i. rewrite Et, En, elem_of_insert_timer.
    intros [->|Hin] Hi.
    + unfold expired_by in Hi. simpl in Hi. apply list_elem_of_singleton in Hi. lia.
    + specialize (H2 tm i Hin Hi). lia.
Qed.

Lemma advance_markers_wf (p : Props) (t : Z) (w : World) :
  markers_wf w → markers_wf (advance p t w).
Proof.
  intros [H1 H2].
  destruct (advance_awareness p t w) as (_&_&_&_&_&_&Edis&En&_&Et).
  split.
  - intros d Hd. rewrite En. apply H1.
    destruct (isDisposed (editor w)) eqn:E.
    + unfold advance in Hd. simpl in Hd.
      rewrite foldl_fire_disposed in Hd by exact E. exact Hd.
    + rewrite advance_decorations in Hd by exact E.
      apply list_elem_of_filter in Hd. tauto.
  - intros tm i Hin Hi. rewrite En. rewrite Et in Hin.
    apply list_elem_of_filter in Hin. apply (H2 tm i); tauto.
Qed.

Lemma handle_markers_wf (p : Props) (i : input) (w : World) :
  markers_wf w → markers_wf (handle p i w).
Proof.
  intros Hwf0.
  apply (handle_inv p (λ _, True) markers_wf);
    [intros w0 d H; exact H| |done|done|exact I|exact Hwf0].
  clear. intros i w Hn _ Hwf.
  destruct i as [u|u o|u|m|pos|text|f v|ev h|ev h| | |id]; simpl; try exact Hwf.
  - destruct (doc_destroyed (ydoc w)); exact Hwf.
  - by destruct (Hn u o).
  - destruct (decide _); [|exact Hwf]. unfold on_yjs_awareness.
    destruct (strict_neq _ _); exact Hwf.
  - destruct (decide _); [|exact Hwf]. by apply on_remote_cursor_markers_wf.
  - unfold on_content_change, markers_wf. destruct Hwf as [H1 H2]. simpl.
    destruct (saveTimeout w) as [old|]; simpl; (split; [exact H1|]);
      intros tm i; rewrite elem_of_insert_timer;
      (intros [->|Hin] Hi; [by apply elem_of_nil in Hi|]).
    + apply list_elem_of_filter in Hin. apply (H2 tm i); tauto.
    + apply (H2 tm i); assumption.
  - destruct (setLocalStateField f v w) as [w'|] eqn:E; [|exact Hwf].
    apply setLocalStateField_ids in E. destruct E as (_&_&_&_&Et&_&Ee&_).
    unfold markers_wf. rewrite Et, Ee. exact Hwf.
  - destruct Hwf as [H1 H2]. split; [|exact H2].
    intros d Hd. by apply elem_of_nil in Hd.
Qed.

Lemma run_markers_wf (p : Props) (sched : list (Z * input)) (w : World) :
  markers_wf w → markers_wf (run p sched w).
Proof.
  unfold run. revert w. induction sched as [|ti sched IH]; intros w H; simpl; [exact H|].
  apply IH. unfold step. apply handle_markers_wf, advance_markers_wf, H.
Qed.











(** * Further properties of the component *)

(** ** Subscribing and unsubscribing *)

Lemma set_delete_fmap_calls (h : nat) (m : gmap value value) (s : list nat) :
  (λ x, (x, m)) <$> set_delete h s
  = filter (λ c : nat * gmap value value, c.1 ≠ h) ((λ x, (x, m)) <$> s).
Proof.
  unfold set_delete. induction s as [|x s IH]; [reflexivity|].
  rewrite fmap_cons. destruct (decide (x = h)) as [->|Hne].
  - rewrite !filter_cons_False by (simpl; tauto). exact IH.
  - rewrite !filter_cons_True by (simpl; tauto). rewrite fmap_cons. by rewrite IH.
Qed.

Lemma set_delete_absent (h : nat) (s : list nat) : h ∉ s → set_delete h s = s.
Proof.
  intros Hn. unfold set_delete. induction s as [|x s IH]; [reflexivity|].
  apply not_elem_of_cons in Hn. destruct Hn as [Hne Hn].
  rewrite filter_cons_True by congruence. by rewrite IH.
Qed.

Lemma with_handlers_same (a : SimpleAwareness) : with_handlers (handlers a) a = a.
Proof. by destruct a. Qed.

Lemma notify_calls_off (event : value) (h : nat) (a : SimpleAwareness) :
  notify_calls event (off event h a)
    = filter (λ c, c.1 ≠ h) (notify_calls event a).
Proof.
  unfold notify_calls, off. destruct (handlers a !! event) as [s|] eqn:E.
  - simpl. rewrite lookup_insert_eq. apply set_delete_fmap_calls.
  - rewrite E. reflexivity.
Qed.

Lemma notify_calls_off_other (event ev' : value) (h : nat) (a : SimpleAwareness) :
  ev' ≠ event → notify_calls ev' (off event h a) = notify_calls ev' a.
Proof.
  intros Hne. unfold notify_calls, off.
  destruct (handlers a !! event) as [s|]; [|reflexivity].
  simpl. by rewrite lookup_insert_ne.
Qed.

Lemma notify_calls_on_new (event : value) (h : nat) (a : SimpleAwareness) :
  (∀ s, handlers a !! event = Some s → h ∉ s) →
  notify_calls event (on event h a) = notify_calls event a ++ [(h, states a)].
Proof.
  intros Hnew. unfold notify_calls. rewrite handlers_on, lookup_insert_eq.
  replace (states (on event h a)) with (states a) by reflexivity.
  unfold set_add. destruct (handlers a !! event) as [s|] eqn:E; simpl.
  - destruct (decide (h ∈ s)) as [Hin|_]; [by destruct (Hnew s eq_refl)|].
    by rewrite fmap_app.
  - reflexivity.
Qed.

Lemma notify_calls_on_other (event ev' : value) (h : nat) (a : SimpleAwareness) :
  ev' ≠ event → notify_calls ev' (on event h a) = notify_calls ev' a.
Proof.
  intros Hne. unfold notify_calls. rewrite handlers_on. by rewrite lookup_insert_ne.
Qed.

(** X1.  [off(event, handler)] silences exactly that handler for that event:
    a later [notify(event)] calls the remaining handlers, in their order,
    and the handlers of every other event are called as before. *)
Theorem off_silences_handler (event : value) (h : nat) (a : SimpleAwareness) :
  notify_calls event (off event h a)
    = filter (λ c, c.1 ≠ h) (notify_calls event a) ∧
  (h ∉ (notify_calls event (off event h a)).*1) ∧
  (∀ ev', ev' ≠ event → notify_calls ev' (off event h a) = notify_calls ev' a).
Proof.
  split; [apply notify_calls_off|]. split.
  - rewrite notify_calls_off. intros Hin. apply list_elem_of_fmap in Hin.
    destruct Hin as (c & -> & Hc). apply list_elem_of_filter in Hc. tauto.
  - intros ev' Hne. by apply notify_calls_off_other.
Qed.

(** X2.  [off] for an event nobody subscribed to, or for a handler that is not
    subscribed to the event, changes nothing. *)
Theorem off_unknown_is_noop (event : value) (h : nat) (a : SimpleAwareness)
    (Hnot : ∀ s, handlers a !! event = Some s → h ∉ s) :
  off event h a = a.
Proof.
  unfold off. destruct (handlers a !! event) as [s|] eqn:E; [|reflexivity].
  rewrite set_delete_absent by (by apply Hnot).
  rewrite insert_id by exact E. apply with_handlers_same.
Qed.

Lemma off_unknown_is_noop_witness :
  off (VStr "update") 3%nat (awareness demo_world) = awareness demo_world ∧
  off (VStr "change") 3%nat (awareness demo_world) = awareness demo_world.
Proof.
  assert (Hd : handlers (awareness demo_world) = {[ VStr "change" := [binding_handler] ]})
    by (vm_compute; reflexivity).
  split; apply off_unknown_is_noop; intros s; rewrite Hd; intros Hs;
    apply lookup_singleton_Some in Hs; destruct Hs as [Hev <-].
  - discriminate Hev.
  - intros Hin. apply list_elem_of_singleton in Hin. discriminate Hin.
Defined.

(** X3.  A handler subscribed with [on] is called after the handlers subscribed
    before it (a [Set] iterates in insertion order), with the same
    argument; subscribing to one event leaves the other events alone. *)
Theorem on_appends_handler (event : value) (h : nat) (a : SimpleAwareness)
    (Hnew : ∀ s, handlers a !! event = Some s → h ∉ s) :
  notify_calls event (on event h a) = notify_calls event a ++ [(h, states a)] ∧
  ∀ ev', ev' ≠ event → notify_calls ev' (on event h a) = notify_calls ev' a.
Proof.
  split; [by apply notify_calls_on_new|].
  intros ev' Hne. by apply notify_calls_on_other.
Qed.

Lemma on_appends_handler_witness :
  notify_calls (VStr "change") (on (VStr "change") 5%nat (awareness demo_world))
    = notify_calls (VStr "change") (awareness demo_world)
      ++ [(5%nat, states (awareness demo_world))].
Proof.
  assert (Hd : handlers (awareness demo_world) = {[ VStr "change" := [binding_handler] ]})
    by (vm_compute; reflexivity).
  apply on_appends_handler. intros s. rewrite Hd. intros Hs.
  apply lookup_singleton_Some in Hs. destruct Hs as [_ <-].
  intros Hin. apply list_elem_of_singleton in Hin. discriminate Hin.
Defined.

(** X4.  Subscribing a handler and unsubscribing it again restores what every
    [notify] does. *)
Theorem on_then_off_restores (event : value) (h : nat) (a : SimpleAwareness)
    (Hnew : ∀ s, handlers a !! event = Some s → h ∉ s) :
  ∀ ev', notify_calls ev' (off event h (on event h a)) = notify_calls ev' a.
Proof.
  intros ev'. destruct (decide (ev' = event)) as [->|Hne].
  - rewrite notify_calls_off, notify_calls_on_new by exact Hnew. rewrite filter_app.
    rewrite (filter_cons_False _ (h, states a)) by (simpl; tauto).
    rewrite filter_nil, app_nil_r.
    unfold notify_calls. destruct (handlers a !! event) as [s|] eqn:E; [|reflexivity].
    specialize (Hnew s eq_refl). clear -Hnew.
    induction s as [|x s IH]; [reflexivity|].
    apply not_elem_of_cons in Hnew. destruct Hnew as [Hne Hn].
    rewrite fmap_cons, filter_cons_True by (simpl; congruence). by rewrite IH.
  - rewrite notify_calls_off_other, notify_calls_on_other by exact Hne. reflexivity.
Qed.

Lemma on_then_off_restores_witness :
  notify_calls (VStr "change")
    (off (VStr "change") 5%nat (on (VStr "change") 5%nat (awareness demo_world)))
  = notify_calls (VStr "change") (awareness demo_world).
Proof.
  assert (Hd : handlers (awareness demo_world) = {[ VStr "change" := [binding_handler] ]})
    by (vm_compute; reflexivity).
  apply on_then_off_restores. intros s. rewrite Hd. intros Hs.
  apply lookup_singleton_Some in Hs. destruct Hs as [_ <-].
  intros Hin. apply list_elem_of_singleton in Hin. discriminate Hin.
Defined.

(** ** Publishing the local state *)

(** X5.  [setLocalState(state)] is read back by [getLocalState()], is announced
    by exactly one [yjs-awareness] message carrying the room, the local
    [clientID] and that state, and calls each ['change'] handler once with a
    states map that already holds the new state. *)
Theorem setLocalState_publishes (state : value) (w : World) :
  let a := awareness w in
  let w' := setLocalState state w in
  getLocalState (awareness w') = state ∧
  emitted (socket w')
    = emitted (socket w) ++ [(now w, YjsAwareness (aw_roomId a) (clientID a) state)] ∧
  ∃ cs, calls w' = calls w ++ cs ∧
        cs.*1 = default [] (handlers a !! VStr "change") ∧
        ∀ c, c ∈ cs → c.2 !! clientID a = Some state ∧
                      ∀ k, k ≠ clientID a → c.2 !! k = states a !! k.
Proof.
  intros a w'. subst a w'. split; [|split].
  - unfold getLocalState, setLocalState. simpl. by rewrite lookup_insert_eq.
  - reflexivity.
  - eexists. split; [reflexivity|]. unfold notify_calls. simpl.
    destruct (handlers (awareness w) !! VStr "change") as [s|]; simpl.
    + split.
      * rewrite <- list_fmap_compose. clear. induction s as [|x s IH]; [reflexivity|].
        rewrite fmap_cons. simpl. by rewrite IH.
      * intros c Hc. apply list_elem_of_fmap in Hc. destruct Hc as (x & -> & _). simpl.
        split; [by rewrite lookup_insert_eq|].
        intros k Hk. by rewrite lookup_insert_ne.
    + split; [reflexivity|]. intros c Hc. by apply elem_of_nil in Hc.
Qed.

(** ** Setting fields of the local state *)

(** X6.  When the local state is a truthy primitive (a nonzero number, a
    nonempty string, [true]), [setLocalStateField] with a field name other
    than [__proto__] throws a [TypeError] before anything is written:
    nothing is emitted and no handler is called.  With [__proto__] the
    assignment runs the prototype setter, which ignores a primitive, and
    nothing is thrown: the primitive is published again as it is. *)
Theorem setLocalStateField_on_primitive_throws (field : string) (v : value) (w : World)
    (Htruthy : truthy (getLocalState (awareness w)) = true)
    (Hprim : ∀ l, getLocalState (awareness w) ≠ VRef l) :
  (field ≠ "__proto__"%string →
     setLocalStateField field v w = Throw TypeError ∧
     ∀ p, handle p (AwarenessSetField field v) w = w) ∧
  (field = "__proto__"%string →
     setLocalStateField field v w
       = Ok (setLocalState (getLocalState (awareness w)) w)).
Proof.
  split.
  - intros Hf.
    assert (E : setLocalStateField field v w = Throw TypeError).
    { unfold setLocalStateField. rewrite Htruthy.
      destruct (getLocalState (awareness w)) as [| | | | |l];
        try (destruct (decide _); [contradiction|reflexivity]).
      by destruct (Hprim l). }
    split; [exact E|]. intros p. simpl. by rewrite E.
  - intros Hf. unfold setLocalStateField. rewrite Htruthy.
    destruct (getLocalState (awareness w)) as [| | | | |l];
      try (destruct (decide _); [reflexivity|contradiction]).
    by destruct (Hprim l).
Qed.

Lemma setLocalStateField_on_primitive_throws_witness :
  setLocalStateField "cursor" (VNum 1) (setLocalState (VStr "away") demo_world)
    = Throw TypeError ∧
  ∃ w', setLocalStateField "__proto__" (VNum 1) (setLocalState (VStr "away") demo_world)
        = Ok w' ∧ getLocalState (awareness w') = VStr "away".
Proof.
  assert (Ht : truthy (getLocalState (awareness (setLocalState (VStr "away") demo_world)))
               = true) by (vm_compute; reflexivity).
  assert (Hp : ∀ l, getLocalState (awareness (setLocalState (VStr "away") demo_world))
                    ≠ VRef l) by (intros l; vm_compute; discriminate).
  split.
  - apply (setLocalStateField_on_primitive_throws "cursor" (VNum 1)
             (setLocalState (VStr "away") demo_world) Ht Hp).
    vm_compute. discriminate.
  - eexists. split.
    + apply (setLocalStateField_on_primitive_throws "__proto__" (VNum 1)
               (setLocalState (VStr "away") demo_world) Ht Hp).
      reflexivity.
    + vm_compute. reflexivity.
Defined.

(** X7.  Fields set by successive calls accumulate in the one local state
    object: after setting [f1] and then [f2], neither of them [__proto__],
    the object holds both values (the later one if the names coincide) and
    every other field it had. *)
Theorem setLocalStateField_accumulates (f1 f2 : string) (v1 v2 : value) (w : World)
    (l : positive) (Hl : getLocalState (awareness w) = VRef l)
    (Hf1 : f1 ≠ "__proto__"%string) (Hf2 : f2 ≠ "__proto__"%string) :
  ∃ w1 w2,
    setLocalStateField f1 v1 w = Ok w1 ∧ setLocalStateField f2 v2 w1 = Ok w2 ∧
    getLocalState (awareness w2) = VRef l ∧
    getProp l f2 (heap w2) = v2 ∧
    (f1 ≠ f2 → getProp l f1 (heap w2) = v1) ∧
    (∀ f, f ≠ f1 → f ≠ f2 → getProp l f (heap w2) = getProp l f (heap w)).
Proof.
  pose (w1 := setLocalState (VRef l) (with_heap (set_own l f1 v1 (heap w)) w)).
  assert (Hl1 : getLocalState (awareness w1) = VRef l).
  { unfold w1, getLocalState, setLocalState. simpl. by rewrite lookup_insert_eq. }
  pose (w2 := setLocalState (VRef l) (with_heap (set_own l f2 v2 (heap w1)) w1)).
  exists w1, w2. split; [by apply setLocalStateField_object|].
  split; [by apply setLocalStateField_object|]. split; [|split; [|split]].
  - unfold w2, getLocalState, setLocalState. simpl. by rewrite lookup_insert_eq.
  - change (heap w2) with (set_own l f2 v2 (heap w1)). apply getProp_set_own.
  - intros Hne. change (heap w2) with (set_own l f2 v2 (set_own l f1 v1 (heap w))).
    rewrite getProp_set_own_ne by (right; congruence). apply getProp_set_own.
  - intros f H1 H2. change (heap w2) with (set_own l f2 v2 (set_own l f1 v1 (heap w))).
    rewrite !getProp_set_own_ne by (right; congruence). reflexivity.
Qed.

Lemma setLocalStateField_accumulates_witness :
  ∃ w1 w2,
    setLocalStateField "cursor" (VNum 4) demo_world = Ok w1 ∧
    setLocalStateField "selection" VNull w1 = Ok w2 ∧
    getProp 2%positive "cursor" (heap w2) = VNum 4 ∧
    getProp 2%positive "selection" (heap w2) = VNull ∧
    getProp 2%positive "user" (heap w2) = VRef 1%positive.
Proof.
  assert (Hl : getLocalState (awareness demo_world) = VRef 2%positive)
    by (vm_compute; reflexivity).
  destruct (setLocalStateField_accumulates "cursor" "selection" (VNum 4) VNull
              demo_world 2%positive Hl ltac:(vm_compute; discriminate)
              ltac:(vm_compute; discriminate))
    as (w1 & w2 & E1 & E2 & _ & E3 & E4 & E5).
  exists w1, w2. split; [exact E1|]. split; [exact E2|].
  split; [apply E4; discriminate|]. split; [exact E3|].
  rewrite E5 by discriminate. vm_compute. reflexivity.
Defined.

(** ** The state after the mount *)

(** X8.  [handleEditorDidMount] always returns.  Afterwards the states map holds
    the local entry and nothing else; the entry is an object whose [user]
    field is an object with the [name] and [color] of [currentUser]; it was
    announced in exactly one [yjs-awareness] message; the three socket
    listeners are installed; no timer is pending; and no subscriber was
    called, the binding subscribing only after the local state was set. *)
Theorem mount_publishes_user (p : Props) (s : Socket) (e : MonacoEditor) (t0 : Z) :
  ∃ w l lu,
    handleEditorDidMount p s e t0 = Ok w ∧
    states (awareness w) = {[ sock_id s := VRef l ]} ∧
    clientID (awareness w) = sock_id s ∧
    getProp l "user" (heap w) = VRef lu ∧
    getProp lu "name" (heap w) = name (currentUser p) ∧
    getProp lu "color" (heap w) = color (currentUser p) ∧
    emitted (socket w)
      = emitted s ++ [(t0, YjsAwareness (roomId p) (sock_id s) (VRef l))] ∧
    listeners (socket w)
      = listeners s ++ ["yjs-sync"; "yjs-awareness"; "remote-cursor"]%string ∧
    notify_calls (VStr "change") (awareness w) = [(binding_handler, states (awareness w))] ∧
    timers w = [] ∧ saveTimeout w = None ∧ calls w = [] ∧ editor w = e.
Proof.
  unfold handleEditorDidMount, alloc. simpl.
  set (o := <["name"%string := name (currentUser p)]>
              (<["color"%string := color (currentUser p)]> (∅ : gmap string value))).
  set (lu := fresh (dom (∅ : Heap))).
  unfold setLocalStateField, getLocalState. simpl. rewrite lookup_empty. simpl.
  unfold alloc, assign_and_publish. simpl.
  set (l := fresh (dom (<[lu := plain o]> (∅ : Heap)))).
  assert (Hne : l ≠ lu).
  { pose proof (is_fresh (dom (<[lu := plain o]> (∅ : Heap)))) as Hf. fold l in Hf.
    intros ->. apply Hf. rewrite dom_insert_L. apply elem_of_union. left.
    by apply elem_of_singleton. }
  eexists. exists l, lu. split; [reflexivity|]. simpl.
  split; [by rewrite insert_empty|]. split; [reflexivity|].
  split; [apply getProp_set_own|]. split; [|split; [|split; [|split; [|split]]]].
  - rewrite getProp_set_own_ne by (left; exact Hne). unfold getProp, deref.
    rewrite lookup_insert_ne by exact Hne. rewrite lookup_insert_eq. simpl.
    unfold o. by rewrite lookup_insert_eq.
  - rewrite getProp_set_own_ne by (left; exact Hne). unfold getProp, deref.
    rewrite lookup_insert_ne by exact Hne. rewrite lookup_insert_eq. simpl.
    unfold o. rewrite lookup_insert_ne by discriminate. by rewrite lookup_insert_eq.
  - reflexivity.
  - by rewrite <- !app_assoc.
  - unfold notify_calls. rewrite handlers_on. simpl. rewrite lookup_insert_eq.
    rewrite lookup_empty. reflexivity.
  - repeat split.
Qed.

(** ** The states map over a session *)

Lemma handle_states_grow (p : Props) (i : input) (w : World) (k : value) :
  is_Some (states (awareness w) !! k) → is_Some (states (awareness (handle p i w)) !! k).
Proof.
  intros Hk.
  destruct i as [u|u o|u|m|pos|text|f v|ev h|ev h| | |id]; simpl; try exact Hk.
  - destruct (doc_destroyed (ydoc w)); exact Hk.
  - destruct (decide _); [|exact Hk].
    destruct (on_yjs_sync_frame p u o w) as (Ea & _). by rewrite Ea.
  - destruct (decide _); [|exact Hk]. unfold on_yjs_awareness.
    destruct (strict_neq _ _); [|exact Hk]. simpl.
    rewrite lookup_insert. destruct (decide _); [by eexists|exact Hk].
  - destruct (decide _); [|exact Hk]. unfold on_remote_cursor, renderRemoteCursor.
    simpl. destruct (deltaDecorations _ _ _). exact Hk.
  - unfold on_content_change. simpl. destruct (saveTimeout w); exact Hk.
  - destruct (setLocalStateField f v w) as [w'|] eqn:E; [|exact Hk].
    apply setLocalStateField_states in E. destruct E as [s E]. rewrite E.
    rewrite lookup_insert. destruct (decide _); [by eexists|exact Hk].
  - unfold off. destruct (handlers (awareness w) !! ev); exact Hk.
Qed.

(** X9.  No handler, timer or method of the component ever deletes an entry of
    the states map: a client seen once stays in [getStates()] for the rest
    of the session, whatever happens. *)
Theorem awareness_entries_never_removed (p : Props) (sched : list (Z * input)) (w : World)
    (k : value) (Hk : is_Some (getStates (awareness w) !! k)) :
  is_Some (getStates (awareness (run p sched w)) !! k).
Proof.
  unfold run, getStates in *. revert w Hk.
  induction sched as [|ti sched IH]; intros w Hk; simpl; [exact Hk|].
  apply IH. unfold step. apply handle_states_grow.
  destruct (advance_awareness p ti.1 w) as (Ea & _). by rewrite Ea.
Qed.

Lemma awareness_entries_never_removed_witness :
  is_Some (getStates (awareness
             (run demo_props [(5, Cleanup); (9, EditorDisposed)]
                (on_yjs_awareness {| upd_clientID := VStr "sock-B"; upd_state := VNull |}
                   demo_world))) !! VStr "sock-B").
Proof.
  apply awareness_entries_never_removed. vm_compute. by eexists.
Defined.



(** ** The local state object over a session *)

Lemma handleEditorDidMount_local_object (p : Props) (s : Socket) (e : MonacoEditor)
    (t0 : Z) (w : World) :
  handleEditorDidMount p s e t0 = Ok w → ∃ l, local_object l w.
Proof.
  unfold handleEditorDidMount, alloc. simpl.
  unfold setLocalStateField, getLocalState. simpl. rewrite lookup_empty. simpl.
  unfold alloc, assign_and_publish. simpl.
  intros [= <-]. eexists. split.
  - unfold getLocalState. simpl. by rewrite lookup_insert_eq.
  - simpl. unfold set_own. rewrite lookup_insert_eq. by eexists.
Qed.

Lemma handle_local_object (p : Props) (i : input) (w : World) (l : positive) :
  id_inv w → local_object l w → local_object l (handle p i w).
Proof.
  intros Hid [Hl Hh].
  destruct i as [u|u o|u|m|pos|text|f v|ev h|ev h| | |id]; simpl; try (by split).
  - destruct (doc_destroyed (ydoc w)); by split.
  - destruct (decide _); [|by split].
    destruct (on_yjs_sync_frame p u o w) as (Ea & Eh & _).
    unfold local_object. by rewrite Ea, Eh.
  - destruct (decide _); [|by split]. unfold on_yjs_awareness.
    destruct (strict_neq _ _) eqn:En; [|by split].
    apply strict_neq_true in En. split; [|exact Hh].
    unfold getLocalState in *. simpl. rewrite lookup_insert_ne; [exact Hl|].
    unfold id_inv in Hid. congruence.
  - destruct (decide _); [|by split]. unfold on_remote_cursor, renderRemoteCursor.
    simpl. destruct (deltaDecorations _ _ _). by split.
  - unfold on_content_change. simpl. destruct (saveTimeout w); by split.
  - destruct (setLocalStateField f v w) as [w'|] eqn:E; [|by split].
    by apply (setLocalStateField_keeps_object f v w w' l).
  - unfold off. destruct (handlers (awareness w) !! ev); by split.
Qed.

Lemma run_local_object (p : Props) (sched : list (Z * input)) (w : World) (l : positive) :
  (∀ ti, ti ∈ sched → is_id_change ti.2 = false) →
  id_inv w → local_object l w → local_object l (run p sched w).
Proof.
  unfold run. revert w. induction sched as [|ti sched IH]; intros w Hs Hid Hl; [exact Hl|].
  simpl. apply IH; [intros x Hx; apply Hs; by right| |].
  { apply step_id_inv; [apply Hs; left|exact Hid]. }
  unfold step.
  destruct (advance_awareness p ti.1 w) as (Ea & Eh & Es & _).
  apply handle_local_object.
  - unfold id_inv. by rewrite Ea, Es.
  - destruct Hl as [H1 H2]. split; [by rewrite Ea|by rewrite Eh].
Qed.

(** X11.  From the mount on, and for as long as the socket keeps the id it
    had at the mount, the local entry refers to one and the same object:
    remote messages never replace it and [setLocalStateField] only writes
    into it. *)
Theorem local_state_object_is_stable (p : Props) (s : Socket) (e : MonacoEditor) (t0 : Z)
    (w0 : World) (Hmount : handleEditorDidMount p s e t0 = Ok w0) :
  ∃ l, getLocalState (awareness w0) = VRef l ∧
    ∀ sched, (∀ ti, ti ∈ sched → is_id_change ti.2 = false) →
      getLocalState (awareness (run p sched w0)) = VRef l ∧
      is_Some (heap (run p sched w0) !! l).
Proof.
  destruct (handleEditorDidMount_local_object p s e t0 w0 Hmount) as [l Hl].
  exists l. split; [exact (proj1 Hl)|]. intros sched Hs.
  exact (run_local_object p sched w0 l Hs
           (handleEditorDidMount_id_inv p s e t0 w0 Hmount) Hl).
Qed.

Lemma local_state_object_is_stable_witness :
  ∃ l, getLocalState (awareness demo_world) = VRef l ∧
    ∀ sched, (∀ ti, ti ∈ sched → is_id_change ti.2 = false) →
      getLocalState (awareness (run demo_props sched demo_world)) = VRef l ∧
      is_Some (heap (run demo_props sched demo_world) !! l).
Proof.
  apply (local_state_object_is_stable demo_props demo_socket demo_editor 0 demo_world).
  vm_compute. reflexivity.
Defined.

(** ** After the cleanup *)

Lemma handle_listeners_sub (p : Props) (i : input) (w : World) (ev : string) :
  ev ∈ listeners (socket (handle p i w)) → ev ∈ listeners (socket w).
Proof.
  destruct i as [u|u o|u|m|pos|text|f v|ev' h|ev' h| | |id]; simpl;
    try (intros H; exact H).
  - destruct (doc_destroyed (ydoc w)); intros H; exact H.
  - destruct (decide _); [|intros H; exact H].
    destruct (on_yjs_sync_frame p u o w) as (_ & _ & _ & El & _). by rewrite El.
  - destruct (decide _); [|intros H; exact H]. unfold on_yjs_awareness.
    destruct (strict_neq _ _); intros H; exact H.
  - destruct (decide _); [|intros H; exact H].
    destruct (on_remote_cursor_frame m w) as (Es & _). by rewrite Es.
  - destruct (saveTimeout w); intros H; exact H.
  - destruct (setLocalStateField f v w) as [w'|] eqn:E; [|intros H; exact H].
    apply setLocalStateField_ids in E. destruct E as (_&_&El&_). by rewrite El.
  - intros H.
    repeat (apply list_elem_of_filter in H; destruct H as [_ H]). exact H.
Qed.

Lemma run_listeners_sub (p : Props) (sched : list (Z * input)) (w : World) (ev : string) :
  ev ∈ listeners (socket (run p sched w)) → ev ∈ listeners (socket w).
Proof.
  unfold run. revert w. induction sched as [|ti sched IH]; intros w H; [exact H|].
  simpl in H. apply IH in H. unfold step in H. apply handle_listeners_sub in H.
  destruct (advance_awareness p ti.1 w) as (_&_&_&El&_). by rewrite El in H.
Qed.

(** X12.  Once the effect cleanup has run, inbound [yjs-sync], [yjs-awareness]
    and [remote-cursor] messages have no effect at all, at any later point
    of the session: nothing re-installs the listeners. *)
Theorem after_cleanup_messages_ignored (p : Props) (w : World) (sched : list (Z * input)) :
  let w' := run p sched (cleanup w) in
  (∀ u o, handle p (SocketSync u o) w' = w') ∧
  (∀ u, handle p (SocketAwareness u) w' = w') ∧
  (∀ m, handle p (SocketRemoteCursor m) w' = w').
Proof.
  intros w'.
  assert (Hno : ∀ ev, ev ∈ ["yjs-sync"; "yjs-awareness"; "remote-cursor"]%string →
                      ev ∉ listeners (socket w')).
  { intros ev Hev Hin. apply run_listeners_sub in Hin.
    by apply (cleanup_listeners w ev Hev). }
  split; [|split]; [intros x o|intros x|intros x]; simpl;
    destruct (decide _) as [Hin|_]; try reflexivity;
    exfalso; refine (Hno _ _ Hin).
  - left.
  - right. left.
  - right. right. left.
Qed.

(** ** Pending auto-saves *)

Lemma handle_pending_saves (p : Props) (i : input) (w : World) :
  is_content_change i = false → pending_saves (handle p i w) = pending_saves w.
Proof.
  intros Hi.
  destruct i as [u|u o|u|m|pos|text|f v|ev h|ev h| | |id]; simpl; try reflexivity;
    try discriminate Hi.
  - destruct (doc_destroyed (ydoc w)); reflexivity.
  - destruct (decide _); [|reflexivity]. unfold on_yjs_sync.
    destruct o as [|[text|] [u'|]]; try discriminate Hi; simpl; try reflexivity.
    destruct (doc_destroyed (ydoc w)); reflexivity.
  - destruct (decide _); [|reflexivity]. unfold on_yjs_awareness.
    destruct (strict_neq _ _); reflexivity.
  - destruct (decide _); [|reflexivity]. unfold pending_saves.
    unfold on_remote_cursor, renderRemoteCursor. simpl.
    destruct (deltaDecorations _ _ _) as [ids e0]. simpl.
    apply filter_insert_timer_skip. exact id.
  - destruct (setLocalStateField f v w) as [w'|] eqn:E; [|reflexivity].
    apply setLocalStateField_ids in E. destruct E as (_&_&_&_&Et&_).
    unfold pending_saves. by rewrite Et.
Qed.

Lemma handle_one_pending_save (p : Props) (i : input) (w : World) :
  one_pending_save w → one_pending_save (handle p i w).
Proof.
  intros H0.
  apply (handle_inv p (λ _, True) one_pending_save);
    [intros w0 d H; exact H| |done|done|exact I|exact H0].
  clear. intros i w Hn _ [Hwf Hlen]. split; [by apply handle_save_wf|].
  destruct (is_content_change i) eqn:Ec.
  - destruct i as [| u o | | | |text| | | | | |]; try discriminate Ec.
    { by destruct (Hn u o). }
    destruct (on_content_change_spec (with_editor (set_content text (editor w)) w))
      as (Hp & _); [exact Hwf|].
    change (length (pending_saves
              (on_content_change (with_editor (set_content text (editor w)) w))) ≤ 1)%nat.
    by rewrite Hp.
  - by rewrite handle_pending_saves.
Qed.

Lemma step_one_pending_save (p : Props) (w : World) (ti : Z * input) :
  one_pending_save w → one_pending_save (step p w ti).
Proof.
  intros [Hwf Hlen]. unfold step. apply handle_one_pending_save.
  split; [by apply advance_save_wf|].
  rewrite advance_pending_saves.
  etransitivity; [apply length_filter|exact Hlen].
Qed.

(** X13.  At every point of a session at most one auto-save is pending, and it is
    the one [saveTimeout] names: a content change replaces the pending save,
    it never queues a second one. *)
Theorem at_most_one_pending_save (p : Props) (s : Socket) (e : MonacoEditor) (t0 : Z)
    (w0 : World) (Hmount : handleEditorDidMount p s e t0 = Ok w0)
    (sched : list (Z * input)) :
  (length (pending_saves (run p sched w0)) ≤ 1)%nat ∧
  ∀ tm, tm ∈ pending_saves (run p sched w0) →
        saveTimeout (run p sched w0) = Some (tid tm).
Proof.
  assert (H0 : one_pending_save w0).
  { split; [by eapply handleEditorDidMount_save_wf|].
    apply handleEditorDidMount_timers in Hmount. destruct Hmount as (Et & _).
    unfold pending_saves. rewrite Et. simpl. lia. }
  assert (H : one_pending_save (run p sched w0)).
  { unfold run. clear Hmount. revert w0 H0.
    induction sched as [|ti sched IH]; intros w0 H0; [exact H0|].
    simpl. apply IH. by apply step_one_pending_save. }
  destruct H as [Hwf Hlen]. split; [exact Hlen|].
  intros tm Hin. apply list_elem_of_filter in Hin. destruct Hin as [Hs Hin].
  by apply Hwf.
Qed.

Lemma at_most_one_pending_save_witness :
  (length (pending_saves
     (run demo_props [(0%Z, ModelContentChanged "a"); (10%Z, ModelContentChanged "ab")]
        demo_world)) ≤ 1)%nat.
Proof.
  apply (at_most_one_pending_save demo_props demo_socket demo_editor 0 demo_world).
  vm_compute. reflexivity.
Defined.

Lemma setLocalStateField_saves (field : string) (v : value) (w w' : World) :
  setLocalStateField field v w = Ok w' → saves w' = saves w.
Proof.
  assert (Hs : ∀ st w0, saves (setLocalState st w0) = saves w0).
  { intros st w0. unfold saves, setLocalState. simpl.
    rewrite filter_app, filter_cons_False, filter_nil by exact id. apply app_nil_r. }
  assert (Ha : ∀ l h w0, assign_and_publish l field v h w0 = Ok w' →
                         saves w' = saves w0).
  { intros l h w0. unfold assign_and_publish. destruct (setProp l field v h); [|discriminate].
    intros [= <-]. by rewrite Hs. }
  unfold setLocalStateField.
  destruct (truthy (getLocalState (awareness w))).
  - destruct (getLocalState (awareness w)); try (by apply Ha);
      (destruct (decide _); [|discriminate]); intros [= <-]; apply Hs.
  - unfold alloc. simpl. apply Ha.
Qed.

Lemma handle_saves (p : Props) (i : input) (w : World) :
  saves (handle p i w) = saves w.
Proof.
  apply (handle_inv p (λ _, True) (λ w', saves w' = saves w));
    [intros w0 d H; exact H| |done|done|exact I|reflexivity].
  clear. intros i w' Hn _ <-. unfold saves.
  destruct i as [u|u o|u|m|pos|text|f v|ev h|ev h| | |id]; simpl; try reflexivity.
  - destruct (doc_destroyed (ydoc w')); [reflexivity|]. simpl.
    rewrite filter_app, filter_cons_False, filter_nil by exact id. apply app_nil_r.
  - by destruct (Hn u o).
  - destruct (decide _); [|reflexivity]. unfold on_yjs_awareness.
    destruct (strict_neq _ _); reflexivity.
  - destruct (decide _); [|reflexivity].
    destruct (on_remote_cursor_frame m w') as (Es & _). by rewrite Es.
  - rewrite filter_app, filter_cons_False, filter_nil by exact id. apply app_nil_r.
  - destruct (saveTimeout w'); reflexivity.
  - destruct (setLocalStateField f v w') as [w2|] eqn:E; [|reflexivity].
    by apply setLocalStateField_saves in E.
Qed.

Lemma handle_content (p : Props) (i : input) (w : World) :
  is_content_change i = false → is_dispose i = false →
  content (editor (handle p i w)) = content (editor w).
Proof.
  intros Hi Hd.
  destruct i as [u|u o|u|m|pos|text|f v|ev h|ev h| | |id]; simpl; try reflexivity;
    try discriminate Hi; try discriminate Hd.
  - by destruct (doc_destroyed (ydoc w)).
  - destruct (decide _); [|reflexivity]. unfold on_yjs_sync.
    destruct o as [|[text|] [u'|]]; try discriminate Hi; simpl; try reflexivity.
    destruct (doc_destroyed (ydoc w)); reflexivity.
  - destruct (decide _); [|reflexivity]. unfold on_yjs_awareness.
    by destruct (strict_neq _ _).
  - destruct (decide _); [|reflexivity].
    by destruct (on_remote_cursor_frame m w) as (_&_&_&_&_&_&_&_&Ec&_).
  - destruct (setLocalStateField f v w) as [w'|] eqn:E; [|reflexivity].
    apply setLocalStateField_ids in E. destruct E as (_&_&_&_&_&_&Ee&_). by rewrite Ee.
Qed.

(** X14.  A [save-code] message is never emitted by a handler itself, only by the
    debounce timer; and with no save pending and no content change, neither
    a local one nor one a sync message merges into the text, none is ever
    emitted, whatever else happens. *)
Theorem saves_come_only_from_debounce (p : Props) :
  (∀ i w, saves (handle p i w) = saves w) ∧
  (∀ sched w,
     pending_saves w = [] →
     (∀ ti, ti ∈ sched → is_content_change ti.2 = false) →
     saves (run p sched w) = saves w).
Proof.
  split; [apply handle_saves|].
  intros sched. unfold run. induction sched as [|ti sched IH]; intros w Hp Hs;
    [reflexivity|].
  simpl.
  assert (Hi : is_content_change ti.2 = false) by (apply Hs; left).
  assert (Hpa : pending_saves (advance p ti.1 w) = []).
  { rewrite advance_pending_saves, Hp. reflexivity. }
  rewrite IH.
  - unfold step. rewrite handle_saves, advance_saves, fired_saves_none; [apply app_nil_r|].
    rewrite filter_swap. fold (pending_saves w). by rewrite Hp.
  - unfold step. by rewrite handle_pending_saves.
  - intros x Hx. apply Hs. by right.
Qed.

Lemma run_quiet_keeps_pending (p : Props) (sched : list (Z * input)) (w : World)
    (tm : Timer) :
  pending_saves w = [tm] →
  (∀ ti, ti ∈ sched →
     is_content_change ti.2 = false ∧ is_dispose ti.2 = false ∧ ti.1 < due tm) →
  pending_saves (run p sched w) = [tm] ∧ saves (run p sched w) = saves w ∧
  content (editor (run p sched w)) = content (editor w).
Proof.
  unfold run. revert w. induction sched as [|ti sched IH]; intros w Hp Hs; [done|].
  simpl. destruct (Hs ti (list_elem_of_here _ _)) as (Hi & Hnd & Ht).
  destruct (advance_before_deadline p ti.1 w tm Hp Ht) as [Hsa Hpa].
  destruct (advance_awareness p ti.1 w) as (_&_&_&_&_&Ec&_).
  destruct (IH (step p w ti)) as (H1 & H2 & H3).
  - unfold step. by rewrite handle_pending_saves.
  - intros x Hx. apply Hs. by right.
  - split; [exact H1|]. split.
    + rewrite H2. unfold step. by rewrite handle_saves.
    + rewrite H3. unfold step. by rewrite handle_content.
Qed.

(** X15.  Other traffic does not disturb the debounce: while a save is pending
    and the editor is not disposed, inputs that do not change the text
    (remote cursors, awareness messages, sync messages that merge nothing
    into the text, cursor moves, even the cleanup) neither trigger it early
    nor cancel or delay it; it is emitted once its deadline has passed, with
    the editor's text. *)
Theorem debounce_undisturbed_by_traffic (p : Props) (sched : list (Z * input)) (w : World)
    (tm : Timer) (t : Z)
    (Hp : pending_saves w = [tm])
    (Hs : ∀ ti, ti ∈ sched →
            is_content_change ti.2 = false ∧ is_dispose ti.2 = false ∧ ti.1 < due tm)
    (Ht : due tm ≤ t) :
  saves (run p sched w) = saves w ∧
  ∃ τ, saves (advance p t (run p sched w))
       = saves w ++ [(τ, SaveCode (roomId p) (content (editor w)) (language p))] ∧
       due tm ≤ τ.
Proof.
  destruct (run_quiet_keeps_pending p sched w tm Hp Hs) as (H1 & H2 & H3).
  split; [exact H2|].
  destruct (advance_past_deadline p t (run p sched w) tm H1 Ht) as [(τ & E & Hτ & _) _].
  exists τ. split; [|exact Hτ]. by rewrite E, H2, H3.
Qed.

Lemma debounce_undisturbed_by_traffic_witness :
  let w := run demo_props [(0, ModelContentChanged "a")] demo_world in
  let sched := [(500, SocketRemoteCursor
                        {| rc_userId := VStr "sock-B";
                           rc_position := {| lineNumber := VNum 1; column := VNum 1 |};
                           rc_user := VNull |});
                (900, Cleanup)] in
  saves (run demo_props sched w) = [] ∧
  ∃ τ, saves (advance demo_props 2000 (run demo_props sched w))
       = [(τ, SaveCode (VStr "r1") "a" (VStr "javascript"))] ∧ 2000 ≤ τ.
Proof.
  intros w sched.
  apply (debounce_undisturbed_by_traffic demo_props sched w
           {| tid := 0%nat; due := 2000; cb := SaveCb |} 2000).
  - vm_compute. reflexivity.
  - intros ti Hin.
    repeat (apply elem_of_cons in Hin; destruct Hin as [->|Hin];
            [split; [reflexivity|split; [reflexivity|simpl; lia]]|]).
    by apply elem_of_nil in Hin.
  - simpl. lia.
Defined.

(** ** Markers do not leak *)

Lemma advance_now_ge (p : Props) (t : Z) (w : World) : now w ≤ now (advance p t w).
Proof.
  unfold advance. simpl.
  pose proof (foldl_fire_now p (filter (λ tm, due tm ≤ t) (timers w))
                (with_timers (filter (λ tm, ¬ due tm ≤ t) (timers w)) (next_timer w) w)
                (Z.max (now w) t)) as H.
  simpl in H. destruct H as [H1 H2]; [lia| |lia].
  intros x Hx. apply list_elem_of_filter in Hx. lia.
Qed.

Lemma advance_markers_expire (p : Props) (t : Z) (w : World) :
  markers_expire w → markers_expire (advance p t w).
Proof.
  intros ((Hid1 & Hid2) & Hcov & Hlive).
  destruct (advance_awareness p t w) as (_&_&_&_&Es&_&Edis&_&En&Et).
  split; [|split].
  - split.
    + intros tm. rewrite Et, En. intros Hin. apply list_elem_of_filter in Hin.
      apply Hid1. tauto.
    + intros old. rewrite Es, En. intros Hold. destruct (Hid2 old Hold) as [H1 H2].
      split; [exact H1|]. intros tm. rewrite Et. intros Hin.
      apply list_elem_of_filter in Hin. apply H2. tauto.
  - intros d Hd. rewrite advance_decorations in Hd by exact Hlive.
    apply list_elem_of_filter in Hd. destruct Hd as [Hn Hd].
    destruct (Hcov d Hd) as (tm & Htm & Hi & Hdue). exists tm. split; [|split].
    + rewrite Et. apply list_elem_of_filter. split; [|exact Htm].
      intros Hle. apply Hn. apply list_elem_of_bind. exists tm. split; [exact Hi|].
      apply list_elem_of_filter. by split.
    + exact Hi.
    + pose proof (advance_now_ge p t w). lia.
  - by rewrite Edis.
Qed.

Lemma handle_markers_expire (p : Props) (i : input) (w : World) :
  is_dispose i = false → markers_expire w → markers_expire (handle p i w).
Proof.
  intros Hi0 Hm0.
  apply (handle_inv p (λ i, is_dispose i = false) markers_expire);
    [intros w0 d H; exact H| |done|done|exact Hi0|exact Hm0].
  clear. intros i w Hn Hi Hm.
  destruct i as [u|u o|u|m|pos|text|f v|ev h|ev h| | |id]; simpl; try exact Hm;
    try discriminate Hi.
  - destruct (doc_destroyed (ydoc w)); exact Hm.
  - by destruct (Hn u o).
  - destruct (decide _); [|exact Hm]. unfold on_yjs_awareness.
    destruct (strict_neq _ _); exact Hm.
  - destruct (decide _); [|exact Hm].
    destruct Hm as ((Hid1 & Hid2) & Hcov & Hlive).
    destruct (on_remote_cursor_spec m w Hlive) as (Ed & _ & Et & Edis & En & Es & _).
    assert (Ent : next_timer (on_remote_cursor m w) = S (next_timer w))
      by apply on_remote_cursor_frame.
    split; [|split].
    + split.
      * intros tm. rewrite Et, Ent, elem_of_insert_timer.
        intros [->|Hin]; [simpl; lia|]. specialize (Hid1 tm Hin). lia.
      * intros old. rewrite Es, Ent. intros Hold. destruct (Hid2 old Hold) as [H1 H2].
        split; [lia|]. intros tm. rewrite Et, elem_of_insert_timer.
        intros [->|Hin] Htid; [simpl in Htid; lia|]. by apply H2.
    + intros d. rewrite Ed, En, Et, elem_of_app, list_elem_of_singleton.
      intros [Hd| ->].
      * destruct (Hcov d Hd) as (tm & Htm & Hi' & Hdue). exists tm.
        rewrite elem_of_insert_timer. auto.
      * eexists. rewrite elem_of_insert_timer. split; [by left|]. split.
        -- unfold expired_by. simpl. by apply list_elem_of_singleton.
        -- simpl. lia.
    + by rewrite Edis.
  - destruct Hm as ((Hid1 & Hid2) & Hcov & Hlive).
    set (w1 := with_editor (set_content text (editor w)) w).
    change (markers_expire (on_content_change w1)).
    assert (Et : ∀ tm, tm ∈ timers (on_content_change w1) ↔
                       tm = {| tid := next_timer w; due := now w + 2000; cb := SaveCb |} ∨
                       (tm ∈ timers w ∧ ∀ old, saveTimeout w = Some old → tid tm ≠ old)).
    { intros tm. unfold on_content_change. simpl. rewrite elem_of_insert_timer.
      destruct (saveTimeout w) as [old|]; simpl.
      - rewrite list_elem_of_filter. split; (intros [H|H]; [by left|right]).
        + destruct H as [H1 H2]. split; [exact H2|]. by intros ? [= <-].
        + destruct H as [H1 H2]. split; [by apply H2|exact H1].
      - split; (intros [H|H]; [by left|right]); [by split|tauto]. }
    assert (Ent : next_timer (on_content_change w1) = S (next_timer w)).
    { unfold on_content_change. simpl. destruct (saveTimeout w); reflexivity. }
    assert (Es : saveTimeout (on_content_change w1) = Some (next_timer w)).
    { unfold on_content_change. simpl. destruct (saveTimeout w); reflexivity. }
    assert (Ee : decorations (editor (on_content_change w1)) = decorations (editor w) ∧
                 isDisposed (editor (on_content_change w1)) = isDisposed (editor w) ∧
                 now (on_content_change w1) = now w).
    { unfold on_content_change. simpl. destruct (saveTimeout w); repeat split. }
    destruct Ee as (Ed & Edis & En).
    split; [|split].
    + split.
      * intros tm. rewrite Et, Ent. intros [->|[Hin _]]; [simpl; lia|].
        specialize (Hid1 tm Hin). lia.
      * intros old. rewrite Es, Ent. intros [= <-]. split; [lia|].
        intros tm. rewrite Et. intros [->|[Hin _]] Htid; [exact I|].
        specialize (Hid1 tm Hin). lia.
    + intros d. rewrite Ed, En. intros Hd.
      destruct (Hcov d Hd) as (tm & Htm & Hi' & Hdue). exists tm.
      split; [|by split]. apply Et. right. split; [exact Htm|].
      intros old Hold Htid. destruct (Hid2 old Hold) as [_ H2].
      specialize (H2 tm Htm Htid). unfold expired_by, is_save_timer in *.
      destruct (cb tm); [by apply elem_of_nil in Hi'|destruct H2].
    + by rewrite Edis.
  - destruct (setLocalStateField f v w) as [w'|] eqn:E; [|exact Hm].
    apply setLocalStateField_ids in E. destruct E as (_&_&_&_&Et&Es&Ee&Ent&En).
    unfold markers_expire, timer_ids_wf, covered. rewrite Et, Es, Ee, Ent, En. exact Hm.
Qed.

Lemma run_markers_expire (p : Props) (sched : list (Z * input)) (w : World) :
  (∀ ti, ti ∈ sched → is_dispose ti.2 = false) →
  markers_expire w → markers_expire (run p sched w).
Proof.
  unfold run. revert w. induction sched as [|ti sched IH]; intros w Hs Hm; [exact Hm|].
  simpl. apply IH.
  - intros x Hx. apply Hs. by right.
  - unfold step. apply handle_markers_expire; [apply Hs; left|].
    by apply advance_markers_expire.
Qed.

(** X16.  As long as the editor is not disposed no marker outlives its dwell
    time: whatever the session did, 3000 ms after its last event the editor
    carries no remote cursor decoration any more. *)
Theorem markers_never_leak (p : Props) (s : Socket) (e : MonacoEditor) (t0 : Z)
    (w0 : World) (sched : list (Z * input)) (t : Z)
    (Hmount : handleEditorDidMount p s e t0 = Ok w0)
    (Hnone : decorations e = []) (Hlive : isDisposed e = false)
    (Hsched : ∀ ti, ti ∈ sched → is_dispose ti.2 = false)
    (Ht : now (run p sched w0) + 3000 ≤ t) :
  decorations (editor (advance p t (run p sched w0))) = [].
Proof.
  apply handleEditorDidMount_timers in Hmount. destruct Hmount as (Et & Es & Ee & _).
  assert (H0 : markers_expire w0).
  { split; [|split].
    - split.
      + intros tm. rewrite Et. intros Hin. by apply elem_of_nil in Hin.
      + intros old. rewrite Es. discriminate.
    - intros d. rewrite Ee, Hnone. intros Hin. by apply elem_of_nil in Hin.
    - by rewrite Ee. }
  destruct (run_markers_expire p sched w0 Hsched H0) as (_ & Hcov & Hl).
  rewrite advance_decorations by exact Hl.
  set (w := run p sched w0) in *. clearbody w.
  assert (Hall : ∀ d : nat * Decoration, d ∈ decorations (editor w) →
            ¬ (d.1 ∉ filter (λ tm, due tm ≤ t) (timers w) ≫= expired_by)).
  { intros d Hd Hn. destruct (Hcov d Hd) as (tm & Htm & Hi & Hdue). apply Hn.
    apply list_elem_of_bind. exists tm. split; [exact Hi|].
    apply list_elem_of_filter. split; [lia|exact Htm]. }
  induction (decorations (editor w)) as [|d ds IH]; [reflexivity|].
  rewrite filter_cons_False by (apply Hall; left).
  apply IH. intros d' Hd'. apply Hall. by right.
Qed.

Lemma markers_never_leak_witness :
  decorations (editor
    (advance demo_props 4200
       (run demo_props
          [(0, SocketRemoteCursor
                 {| rc_userId := VStr "sock-B";
                    rc_position := {| lineNumber := VNum 1; column := VNum 1 |};
                    rc_user := VNull |});
           (1200, SocketRemoteCursor
                    {| rc_userId := VStr "sock-B";
                       rc_position := {| lineNumber := VNum 2; column := VNum 1 |};
                       rc_user := VNull |})] demo_world))) = [].
Proof.
  apply (markers_never_leak demo_props demo_socket demo_editor 0 demo_world).
  - vm_compute. reflexivity.
  - reflexivity.
  - reflexivity.
  - intros ti Hin.
    repeat (apply elem_of_cons in Hin; destruct Hin as [->|Hin]; [reflexivity|]).
    by apply elem_of_nil in Hin.
  - vm_compute. discriminate.
Defined.

(** ** Broadcasting the local cursor *)

Lemma fired_saves_no_cursor (p : Props) (c : string) (clock : Z) (l : list Timer) :
  filter (λ m, is_cursor_msg m) (fired_saves p c clock l) = [].
Proof.
  revert clock. induction l as [|tm l IH]; intros clock; simpl; [reflexivity|].
  destruct (is_save_timer tm); simpl; [|apply IH].
  rewrite filter_cons_False by exact id. apply IH.
Qed.

Lemma advance_cursor_msgs (p : Props) (t : Z) (w : World) :
  cursor_msgs (advance p t w) = cursor_msgs w.
Proof.
  unfold cursor_msgs, advance. simpl. rewrite foldl_fire_emitted. simpl.
  by rewrite filter_app, fired_saves_no_cursor, app_nil_r.
Qed.

Lemma on_cursor_position_msgs (p : Props) (pos : Position) (w : World) :
  cursor_msgs (on_cursor_position p pos w)
    = cursor_msgs w
      ++ [CursorPosition (roomId p) (lineNumber pos) (column pos) (currentUser p)
            (sock_id (socket w))].
Proof.
  unfold cursor_msgs, on_cursor_position, socket_emit. simpl.
  rewrite filter_app, fmap_app. rewrite filter_cons_True by exact I. reflexivity.
Qed.

(** X17.  Local cursor moves are broadcast unthrottled: each move emits exactly
    one [cursor-position] message, in order, carrying the room, the
    position, [currentUser] and the socket's id, however close together the
    moves are and whatever timers run in between. *)
Theorem cursor_moves_broadcast_unthrottled (p : Props) (b : list (Z * Position))
    (w : World) :
  cursor_msgs (run p (moves_sched b) w)
    = cursor_msgs w
      ++ ((λ tp, CursorPosition (roomId p) (lineNumber tp.2) (column tp.2)
                   (currentUser p) (sock_id (socket w))) <$> b).
Proof.
  unfold run. revert w. induction b as [|[t pos] b IH]; intros w.
  - simpl. by rewrite app_nil_r.
  - change (foldl (step p) w (moves_sched ((t, pos) :: b)))
      with (foldl (step p) (on_cursor_position p pos (advance p t w)) (moves_sched b)).
    rewrite IH. destruct (advance_awareness p t w) as (_&_&Es&_).
    rewrite fmap_cons, cons_middle, app_assoc. f_equal.
    + by rewrite on_cursor_position_msgs, advance_cursor_msgs, Es.
    + change (sock_id (socket (on_cursor_position p pos (advance p t w))))
        with (sock_id (socket (advance p t w))).
      by rewrite Es.
Qed.

(** ** Inbound number arrays *)

Lemma byte_to_Z_ToUint8 (n : Z) : byte_to_Z (ToUint8 n) = n mod 256.
Proof.
  unfold byte_to_Z, ToUint8.
  pose proof (Z.mod_pos_bound n 256 ltac:(lia)) as Hb.
  destruct (Byte.of_N (Z.to_N (n mod 256))) as [b|] eqn:E; simpl.
  - apply Byte.to_of_N in E. rewrite E. apply Z2N.id. lia.
  - apply Byte.of_N_None_iff in E. lia.
Qed.

(** X18.  The [yjs-sync] handler accepts any array of integers: a number outside
    0..255 is not rejected but reduced modulo 256, element by element, and
    the update handed to [Y.applyUpdate] has as many bytes as the array has
    elements. *)
Theorem yjs_sync_wraps_numbers (p : Props) (update : list Z) (o : SyncOutcome)
    (w : World) :
  ∃ bytes,
    applied (ydoc (on_yjs_sync p update o w)) = applied (ydoc w) ++ [bytes] ∧
    Array_from bytes = (λ n, n mod 256) <$> update ∧
    length bytes = length update.
Proof.
  exists (new_Uint8Array update). split; [apply on_yjs_sync_applied|]. split.
  - unfold Array_from, new_Uint8Array. rewrite <- list_fmap_compose.
    apply list_fmap_ext. intros _ n _. apply byte_to_Z_ToUint8.
  - unfold new_Uint8Array. apply length_fmap.
Qed.

(** ** The room page *)

Lemma fileExtension_other (l : string) :
  l ≠ "javascript"%string → l ≠ "typescript"%string → l ≠ "python"%string →
  Page.fileExtension l = l.
Proof.
  intros H1 H2 H3. unfold Page.fileExtension.
  by rewrite !decide_False by assumption.
Qed.

(** X19.  The file name shown in the top bar: [javascript], [typescript] and
    [python] get the extensions [js], [ts] and [py], every other language
    is its own extension, the function is idempotent, and the eight
    languages of the selector get eight different extensions. *)
Theorem file_extensions_distinct :
  Page.fileExtension "javascript" = "js"%string ∧
  Page.fileExtension "typescript" = "ts"%string ∧
  Page.fileExtension "python" = "py"%string ∧
  Page.fileExtension ∘ Page.lang_value <$> Page.languages
    = ["js"; "ts"; "py"; "java"; "cpp"; "html"; "css"; "json"]%string ∧
  NoDup (Page.fileExtension ∘ Page.lang_value <$> Page.languages) ∧
  ∀ l : string,
    Page.fileExtension (Page.fileExtension l) = Page.fileExtension l ∧
    (l ∉ ["javascript"; "typescript"; "python"]%string → Page.fileExtension l = l).
Proof.
  split; [reflexivity|]. split; [reflexivity|]. split; [reflexivity|].
  split; [reflexivity|]. split.
  - apply (bool_decide_unpack _). vm_compute. exact I.
  - intros l. split.
    + destruct (decide (l = "javascript"%string)) as [->|H1]; [reflexivity|].
      destruct (decide (l = "typescript"%string)) as [->|H2]; [reflexivity|].
      destruct (decide (l = "python"%string)) as [->|H3]; [reflexivity|].
      by rewrite !(fileExtension_other l H1 H2 H3).
    + intros Hl. apply fileExtension_other; intros ->; apply Hl.
      * left.
      * right. left.
      * right. right. left.
Qed.

Lemma pg_clicks_keeps_reset (room : value) (ts : list Z) (s : Page.CopyState) (d : Z) :
  d ∈ Page.resets s → (∀ x, x ∈ ts → x < d) → d ∈ Page.resets (Page.pg_clicks room ts s).
Proof.
  unfold Page.pg_clicks. revert s. induction ts as [|x ts IH]; intros s Hd Hts; [exact Hd|].
  simpl. apply IH.
  - unfold Page.pg_click, Page.copyRoomId, Page.pg_advance. simpl.
    apply elem_of_app. left. apply list_elem_of_filter. split; [|exact Hd].
    specialize (Hts x (list_elem_of_here _ _)). lia.
  - intros y Hy. apply Hts. by right.
Qed.

Lemma pg_clicks_copied (room : value) (ts : list Z) (s : Page.CopyState) :
  ts ≠ [] → Page.copied (Page.pg_clicks room ts s) = true.
Proof.
  unfold Page.pg_clicks. revert s. induction ts as [|x ts IH]; intros s Hne; [done|].
  simpl. destruct ts as [|y ts]; [reflexivity|]. by apply IH.
Qed.

Lemma pg_clicks_clipboard (room : value) (ts : list Z) (s : Page.CopyState) :
  Page.clipboard (Page.pg_clicks room ts s)
    = Page.clipboard s ++ replicate (length ts) room.
Proof.
  unfold Page.pg_clicks. revert s. induction ts as [|x ts IH]; intros s; simpl.
  - by rewrite app_nil_r.
  - rewrite IH. simpl. by rewrite <- app_assoc.
Qed.

Lemma pg_clicks_resets_late (room : value) (ts : list Z) (s : Page.CopyState) (D : Z) :
  D ≤ Page.pg_now s + 2000 → (∀ d, d ∈ Page.resets s → D ≤ d) →
  ∀ d, d ∈ Page.resets (Page.pg_clicks room ts s) → D ≤ d.
Proof.
  unfold Page.pg_clicks. revert s. induction ts as [|x ts IH]; intros s Hn Hs; [exact Hs|].
  simpl. apply IH.
  - unfold Page.pg_click, Page.copyRoomId, Page.pg_advance. simpl. lia.
  - intros d. unfold Page.pg_click, Page.copyRoomId, Page.pg_advance. simpl.
    rewrite elem_of_app, list_elem_of_filter, list_elem_of_singleton.
    intros [[_ Hd]| ->]; [by apply Hs|lia].
Qed.

(** X20.  [copyRoomId] writes the room id to the clipboard and shows the
    "Copied!" indicator; the reset it schedules is never cancelled.  So in a
    rapid series of clicks the indicator goes off 2000 ms after the first
    click, however recent the last click is; and, no reset being pending
    from before the series, it stays on until then. *)
Theorem copy_indicator_resets_after_first_click (room : value) (s : Page.CopyState)
    (t1 : Z) (rest : list Z) (t : Z)
    (Hnow : Page.pg_now s ≤ t1)
    (Hrapid : ∀ x, x ∈ rest → x < t1 + 2000)
    (Ht : t1 + 2000 ≤ t) :
  let s' := Page.pg_clicks room (t1 :: rest) s in
  Page.copied s' = true ∧
  Page.clipboard s' = Page.clipboard s ++ replicate (S (length rest)) room ∧
  Page.copied (Page.pg_advance t s') = false ∧
  ((∀ d, d ∈ Page.resets s → d ≤ t1) →
   ∀ t', t' < t1 + 2000 → Page.copied (Page.pg_advance t' s') = true).
Proof.
  intros s'. split; [|split; [|split]].
  - by apply pg_clicks_copied.
  - apply pg_clicks_clipboard.
  - unfold Page.pg_advance. simpl.
    destruct (decide (Exists (λ d, d ≤ t) (Page.resets s'))) as [|Hn]; [reflexivity|].
    destruct Hn. apply Exists_exists. exists (t1 + 2000). split; [|exact Ht].
    unfold s'. change (Page.pg_clicks room (t1 :: rest) s)
      with (Page.pg_clicks room rest (Page.pg_click room s t1)).
    apply pg_clicks_keeps_reset; [|exact Hrapid].
    unfold Page.pg_click, Page.copyRoomId, Page.pg_advance. simpl.
    apply elem_of_app. right. apply list_elem_of_singleton. lia.
  - intros Hold t' Ht'. unfold Page.pg_advance. simpl.
    destruct (decide (Exists (λ d, d ≤ t') (Page.resets s'))) as [Hex|_];
      [|by apply pg_clicks_copied].
    exfalso. apply Exists_exists in Hex. destruct Hex as (d & Hd & Hle).
    assert (Hlate : t1 + 2000 ≤ d); [|lia].
    clear Hle. revert d Hd. unfold s'.
    change (Page.pg_clicks room (t1 :: rest) s)
      with (Page.pg_clicks room rest (Page.pg_click room s t1)).
    apply pg_clicks_resets_late.
    + unfold Page.pg_click, Page.copyRoomId, Page.pg_advance. simpl. lia.
    + intros d. unfold Page.pg_click, Page.copyRoomId, Page.pg_advance. simpl.
      rewrite elem_of_app, list_elem_of_filter, list_elem_of_singleton.
      intros [[Hn Hd]| ->]; [specialize (Hold d Hd); lia|lia].
Qed.

Lemma copy_indicator_resets_after_first_click_witness :
  let s0 := {| Page.pg_now := 0; Page.copied := false; Page.clipboard := [];
               Page.resets := [] |} in
  let s' := Page.pg_clicks (VStr "r1") [0; 1500] s0 in
  Page.copied s' = true ∧
  Page.clipboard s' = [VStr "r1"; VStr "r1"] ∧
  Page.copied (Page.pg_advance 2000 s') = false ∧
  Page.copied (Page.pg_advance 1999 s') = true.
Proof.
  intros s0 s'.
  destruct (copy_indicator_resets_after_first_click (VStr "r1") s0 0 [1500] 2000)
    as (H1 & H2 & H3 & H4).
  - simpl. lia.
  - intros x Hx. apply list_elem_of_singleton in Hx. lia.
  - lia.
  - split; [exact H1|]. split; [exact H2|]. split; [exact H3|].
    apply H4; [|lia]. intros d Hd. by apply elem_of_nil in Hd.
Defined.
